(** * preboot: inline code generation (src/lib/api/inline.preboot.code.ts)

    A shallow embedding of the code generator of preboot: the option merge
    ([assign]), the option check ([validateOptions]), the function-aware
    serializer ([stringifyWithFunctions]) and the three emitters.

    Modelling conventions.
    - JavaScript strings are [string]s (code units restricted to one byte).
    - JavaScript values are the inductive [value], finite trees; an object
      is its list of own enumerable fields in enumeration order; a function
      is known by the text [Function.prototype.toString] returns for it and
      by its [length].  Numbers are integers, printed with all their digits
      (as JavaScript prints them below 10^21).
    - Objects are plain records: no own field shadows [toJSON], [toString]
      or [hasOwnProperty], and no key is an array index (such keys would be
      enumerated first by the engine).
    - [assign] writes into its target: the objects of the module live in a
      [store], and the emitters are store transformers.
    - A function that can throw returns a [result]; the [while] loop of the
      serializer runs on fuel. *)

From Stdlib Require Import ZArith List Bool Lia Ascii String DecimalString.
From Stdlib Require DecimalPos DecimalFacts.
Import ListNotations.
#[local] Set Warnings "-register-all".
Open Scope string_scope.
Open Scope Z_scope.

(** ** Text primitives of the host language *)

Module Js.

Definition LF : ascii := ascii_of_nat 10.
Definition nl : string := String LF "".
Definition backslash : ascii := ascii_of_nat 92.
Definition dquote : ascii := ascii_of_nat 34.

Fixpoint take (n : nat) (s : string) : string :=
  match n, s with
  | S n', String c s' => String c (take n' s')
  | _, _ => ""
  end.

Fixpoint drop (n : nat) (s : string) : string :=
  match n, s with
  | S n', String _ s' => drop n' s'
  | _, _ => s
  end.

(** Position of the first occurrence of [pat] in [s], scanning from the left. *)
Fixpoint find (pat s : string) : option nat :=
  if prefix pat s then Some 0%nat
  else match s with
       | "" => None
       | String _ s' => option_map S (find pat s')
       end.

(** [String.prototype.indexOf]: the position, or -1. *)
Definition indexOf (s pat : string) : Z :=
  match find pat s with
  | Some n => Z.of_nat n
  | None => -1
  end.

Definition len (s : string) : Z := Z.of_nat (String.length s).

Definition clamp (s : string) (i : Z) : Z := Z.max 0 (Z.min i (len s)).

(** [String.prototype.substring(start, end)]: both positions are clamped to
    [0, length] and swapped when [start > end]. *)
Definition substring (s : string) (start stop : Z) : string :=
  let a := clamp s start in
  let b := clamp s stop in
  let lo := Z.min a b in
  let hi := Z.max a b in
  take (Z.to_nat (hi - lo)) (drop (Z.to_nat lo) s).

(** [String.prototype.substring(start)]. *)
Definition substringFrom (s : string) (start : Z) : string :=
  substring s start (len s).

(** [String.prototype.replace(pat, rep)] with a string pattern: only the
    first occurrence is replaced.  (The replacement texts used here hold
    no [$] pattern.) *)
Definition replace (s pat rep : string) : string :=
  match find pat s with
  | Some n => take n s ++ rep ++ drop (n + String.length pat) s
  | None => s
  end.

(** [s.replace(/\\n/g, '\n')]: every backslash followed by [n], scanning
    from the left without overlap, becomes a line feed. *)
Fixpoint replaceEscapedNewlines (s : string) : string :=
  match s with
  | "" => ""
  | String c s' =>
      if Ascii.eqb c backslash then
        match s' with
        | String "n"%char s'' => String LF (replaceEscapedNewlines s'')
        | _ => String c (replaceEscapedNewlines s')
        end
      else String c (replaceEscapedNewlines s')
  end.

(** [Array.prototype.join]. *)
Fixpoint join (sep : string) (l : list string) : string :=
  match l with
  | [] => ""
  | [x] => x
  | x :: rest => x ++ sep ++ join sep rest
  end.

(** Membership of a character in a text. *)
Fixpoint has (c : ascii) (s : string) : bool :=
  match s with
  | "" => false
  | String x s' => Ascii.eqb c x || has c s'
  end.

(** The pattern occurs nowhere in the text. *)
Definition lacks (pat s : string) : Prop := find pat s = None.


(** Decimal text of an integer, as [Number.prototype.toString] prints it. *)
Definition decimal (n : Z) : string := NilZero.string_of_int (Z.to_int n).

End Js.

(** ** Values *)

(** A function object, as far as this module observes one: the text
    [Function.prototype.toString] returns and the [length] property. *)
Record func : Type := Func { source : string; params : nat }.

Inductive value : Type :=
| VUndefined
| VNull
| VBool (b : bool)
| VNum (n : Z)
| VStr (s : string)
| VArr (items : list value)
| VObj (fields : list (string * value))
| VFun (f : func).

Inductive exn : Type :=
| Error (message : string)
| TypeError (message : string).

(** Outcome of a call: a value, a thrown exception, or a loop that used
    up its fuel. *)
Inductive result (A : Type) : Type :=
| Ok (a : A)
| Throw (e : exn)
| OutOfFuel.
Arguments Ok {A} a.
Arguments Throw {A} e.
Arguments OutOfFuel {A}.

(** Truthiness ([ToBoolean]). *)
Definition truthy (v : value) : bool :=
  match v with
  | VUndefined | VNull => false
  | VBool b => b
  | VNum n => negb (n =? 0)
  | VStr s => negb (String.eqb s "")
  | VArr _ | VObj _ | VFun _ => true
  end.

Fixpoint lookup (k : string) (fs : list (string * value)) : option value :=
  match fs with
  | [] => None
  | (k', v) :: rest => if String.eqb k k' then Some v else lookup k rest
  end.

(** A built-in function reached through a prototype. *)
Definition native (name : string) (arity : nat) : value :=
  VFun (Func ("function " ++ name ++ "() { [native code] }") arity).

(** Property read [v.name] for the names this module reads: [appRoot],
    [length], [constructor], [call], [apply]. *)
Definition getProp (v : value) (name : string) : value :=
  match v with
  | VUndefined | VNull => VUndefined
  | VBool _ => if String.eqb name "constructor" then native "Boolean" 1 else VUndefined
  | VNum _ => if String.eqb name "constructor" then native "Number" 1 else VUndefined
  | VStr s =>
      if String.eqb name "length" then VNum (Js.len s)
      else if String.eqb name "constructor" then native "String" 1 else VUndefined
  | VArr xs =>
      if String.eqb name "length" then VNum (Z.of_nat (List.length xs))
      else if String.eqb name "constructor" then native "Array" 1 else VUndefined
  | VObj fs =>
      match lookup name fs with
      | Some x => x
      | None => if String.eqb name "constructor" then native "Object" 1 else VUndefined
      end
  | VFun f =>
      if String.eqb name "length" then VNum (Z.of_nat (params f))
      else if String.eqb name "constructor" then native "Function" 1
      else if String.eqb name "call" then native "call" 1
      else if String.eqb name "apply" then native "apply" 2
      else VUndefined
  end.

(** [value.toString()] for the values the serializer calls it on. *)
Definition toString (v : value) : string :=
  match v with
  | VFun f => source f
  | VObj _ => "[object Object]"
  | VStr s => s
  | VBool true => "true"
  | VBool false => "false"
  | VNum n => Js.decimal n
  | _ => ""
  end.

(** ** JSON.stringify *)

Module JSON.

Definition hexDigit (n : nat) : ascii :=
  match n with
  | 0 => "0" | 1 => "1" | 2 => "2" | 3 => "3" | 4 => "4" | 5 => "5"
  | 6 => "6" | 7 => "7" | 8 => "8" | 9 => "9" | 10 => "a" | 11 => "b"
  | 12 => "c" | 13 => "d" | 14 => "e" | _ => "f"
  end%nat%char.

(** One code unit inside a JSON string ([QuoteJSONString]). *)
Definition escapeChar (c : ascii) : string :=
  let n := nat_of_ascii c in
  if Nat.eqb n 8 then "\b"
  else if Nat.eqb n 9 then "\t"
  else if Nat.eqb n 10 then "\n"
  else if Nat.eqb n 12 then "\f"
  else if Nat.eqb n 13 then "\r"
  else if Nat.eqb n 34 then String Js.backslash (String Js.dquote "")
  else if Nat.eqb n 92 then "\\"
  else if Nat.ltb n 32 then
    "\u00" ++ String (hexDigit (n / 16)) (String (hexDigit (n mod 16)) "")
  else String c "".

Fixpoint escape (s : string) : string :=
  match s with
  | "" => ""
  | String c s' => escapeChar c ++ escape s'
  end.

Definition quote (s : string) : string :=
  String Js.dquote (escape s ++ String Js.dquote "").

(** [JSON.stringify(v, replacer)] for a replacer that either hands back the
    value it is given ([None]) or puts a string in its place ([Some]).  The
    replacer sees the root and every field and element before it is
    encoded.  [None] as a result is JavaScript's [undefined]: a field with
    such a value is left out, an element of an array is written [null]. *)
Fixpoint stringify (replacer : value -> option string) (v : value)
  : option string :=
  match replacer v with
  | Some s => Some (quote s)
  | None =>
      match v with
      | VUndefined => None
      | VFun _ => None
      | VNull => Some "null"
      | VBool true => Some "true"
      | VBool false => Some "false"
      | VNum n => Some (Js.decimal n)
      | VStr s => Some (quote s)
      | VArr items =>
          Some ("[" ++ Js.join ","
                  (map (fun x => match stringify replacer x with
                                 | Some t => t
                                 | None => "null"
                                 end) items) ++ "]")
      | VObj fields =>
          Some ("{" ++ Js.join ","
                  (flat_map (fun kx => match stringify replacer (snd kx) with
                                       | Some t => [quote (fst kx) ++ ":" ++ t]
                                       | None => []
                                       end) fields) ++ "}")
      end
  end.

(** [JSON.stringify(v)]: the standard encoding, no replacer. *)
Definition encode (v : value) : option string := stringify (fun _ => None) v.

End JSON.

(** ** The function-aware serializer *)

Definition FUNC_START : string := "START_FUNCTION_HERE".
Definition FUNC_STOP : string := "STOP_FUNCTION_HERE".

(** A capital letter or an underscore: what both markers are made of. *)
Definition isMarkerChar (c : ascii) : bool :=
  let n := nat_of_ascii c in
  (Nat.leb 65 n && Nat.leb n 90) || Nat.eqb n 95.

Definition markerLike (pat : string) : bool :=
  negb (String.eqb pat "")
  && forallb isMarkerChar (list_ascii_of_string pat).

(** The replacer's test: [!!(value && value.constructor && value.call &&
    value.apply)]. *)
Definition isFunctionLike (v : value) : bool :=
  truthy v && truthy (getProp v "constructor")
  && truthy (getProp v "call") && truthy (getProp v "apply").

(** The replacer handed to [JSON.stringify]. *)
Definition markFunctions (v : value) : option string :=
  if isFunctionLike v then Some (FUNC_START ++ toString v ++ FUNC_STOP)
  else None.

(** One round of the [while] loop: the text between the first start marker
    and the first stop marker replaces the marked span and one character on
    each side of it. *)
Definition spliceOnce (str : string) (startFuncIdx : Z) : string :=
  let stopFuncIdx := Js.indexOf str FUNC_STOP in
  let fn := Js.substring str (startFuncIdx + Js.len FUNC_START) stopFuncIdx in
  let fn := Js.replaceEscapedNewlines fn in
  Js.substring str 0 (startFuncIdx - 1) ++ fn
    ++ Js.substringFrom str (stopFuncIdx + Js.len FUNC_STOP + 1).

Fixpoint spliceLoop (fuel : nat) (str : string) (startFuncIdx : Z)
  : result string :=
  if startFuncIdx >=? 0 then
    match fuel with
    | O => OutOfFuel
    | S fuel' =>
        let str' := spliceOnce str startFuncIdx in
        spliceLoop fuel' str' (Js.indexOf str' FUNC_START)
    end
  else Ok str.

(** What [str.indexOf] throws when [JSON.stringify] returned [undefined]. *)
Definition undefinedText : exn :=
  TypeError "Cannot read properties of undefined (reading 'indexOf')".

Definition stringifyWithFunctions (fuel : nat) (obj : value) : result string :=
  match JSON.stringify markFunctions obj with
  | None => Throw undefinedText
  | Some str => spliceLoop fuel str (Js.indexOf str FUNC_START)
  end.

(** ** The object store

    [assign] writes into its target, so the objects the module owns or
    creates live in a store, addressed by position.  The fields of a stored
    object hold values; nothing in this module writes below the first
    level of an object. *)

Definition field := (string * value)%type.
Definition store := list (list field).

(** What a variable of type [Object] may hold. *)
Inductive reference : Type :=
| Undefined
| Null
| Object_ (addr : nat).

Definition M (A : Type) : Type := store -> result A * store.

Definition ret {A} (a : A) : M A := fun st => (Ok a, st).

Definition bind {A B} (m : M A) (k : A -> M B) : M B :=
  fun st =>
    match m st with
    | (Ok a, st') => k a st'
    | (Throw e, st') => (Throw e, st')
    | (OutOfFuel, st') => (OutOfFuel, st')
    end.

Definition lift {A} (r : result A) : M A := fun st => (r, st).

Notation "'let*' x ':=' m 'in' k" := (bind m (fun x => k))
  (at level 10, x name, m at level 100, k at level 200).

Definition deref (st : store) (addr : nat) : list field := nth addr st [].

(** The object literal [{}]: a new object at a new address. *)
Definition newObject : M reference :=
  fun st => (Ok (Object_ (List.length st)), st ++ [[]])%list.

(** The value of an object variable, as a callee that only reads sees it. *)
Definition load (r : reference) : M value :=
  fun st =>
    match r with
    | Undefined => (Ok VUndefined, st)
    | Null => (Ok VNull, st)
    | Object_ a => (Ok (VObj (deref st a)), st)
    end.

Fixpoint update (addr : nat) (fs : list field) (st : store) : store :=
  match st, addr with
  | [], _ => []
  | _ :: rest, O => fs :: rest
  | o :: rest, S a => o :: update a fs rest
  end.

(** ** Options *)

(** [output[key] = v]: an own field keeps its place, a new one goes last. *)
Fixpoint setField (key : string) (v : value) (fs : list field) : list field :=
  match fs with
  | [] => [(key, v)]
  | (k, x) :: rest =>
      if String.eqb key k then (k, v) :: rest
      else (k, x) :: setField key v rest
  end.

Fixpoint indexed {A} (i : nat) (f : A -> value) (l : list A) : list field :=
  match l with
  | [] => []
  | x :: rest => (Js.decimal (Z.of_nat i), f x) :: indexed (S i) f rest
  end.

(** The keys a [for ... in] loop visits that pass [hasOwnProperty], with
    their values. *)
Definition ownFields (v : value) : list field :=
  match v with
  | VObj fs => fs
  | VArr xs => indexed 0 (fun x => x) xs
  | VStr s => indexed 0 (fun c => VStr (String c "")) (list_ascii_of_string s)
  | _ => []
  end.

(** The inner [for ... in] loop over one source. *)
Definition copyFields (output : list field) (source : value) : list field :=
  fold_left (fun out kv => setField (fst kv) (snd kv) out) (ownFields source) output.

(** [assign(target, ...optionSets)]: the fields of every source that is
    neither [undefined] nor [null] are written into the target object,
    which is also the returned [output]. *)
Definition assign (target : reference) (optionSets : list value) : M reference :=
  fun st =>
    match target with
    | Undefined | Null =>
        (Throw (TypeError "Cannot convert undefined or null to object"), st)
    | Object_ a =>
        (Ok (Object_ a), update a (fold_left copyFields optionSets (deref st a)) st)
    end.

Definition appRootMissing : string :=
  "The appRoot is missing from preboot options. "
  ++ "This is needed to find the root of your application. "
  ++ "Set this value in the preboot options to be a selector for the root element of your app.".

Definition validateOptions (opts : value) : result unit :=
  if negb (truthy (getProp opts "appRoot"))
     || negb (truthy (getProp (getProp opts "appRoot") "length"))
  then Throw (Error appRootMissing)
  else Ok tt.

Definition initFunctionName : string := "prebootInitFn".

Definition strs (l : list string) : value := VArr (map VStr l).

(** The object literal bound to [defaultOptions]. *)
Definition defaultOptionsFields : list field :=
    [ ("buffer", VBool true);
      ("minify", VBool true);
      ("replay", VBool true);
      ("eventSelectors",
        VArr
          [ VObj [ ("selector", VStr "input,textarea");
                   ("events", strs ["keypress"; "keyup"; "keydown"; "input"; "change"]) ];
            VObj [ ("selector", VStr "select,option");
                   ("events", strs ["change"]) ];
            VObj [ ("selector", VStr "input");
                   ("events", strs ["keyup"]);
                   ("preventDefault", VBool true);
                   ("keyCodes", VArr [VNum 13]);
                   ("freeze", VBool true) ];
            VObj [ ("selector", VStr "form");
                   ("events", strs ["submit"]);
                   ("preventDefault", VBool true);
                   ("freeze", VBool true) ];
            VObj [ ("selector", VStr "input,textarea");
                   ("events", strs ["focusin"; "focusout"; "mousedown"; "mouseup"]);
                   ("replay", VBool false) ];
            VObj [ ("selector", VStr "button");
                   ("events", strs ["click"]);
                   ("preventDefault", VBool true);
                   ("freeze", VBool true) ] ]) ].

(** [defaultOptions] is the first object the module creates. *)
Definition defaultOptions : reference := Object_ 0.

(** The store once the module is loaded. *)
Definition initialStore : store := [defaultOptionsFields].

(** ** The emitters

    The event recorder ([./event.recorder]) and [getNodeKeyForPreboot]
    ([../common/get-node-key]) are imported functions; the generator only
    reads their text. *)

Section Emitters.

Variables start createOverlay getAppRoots handleEvents createListenHandler
  getSelection createBuffer init getNodeKeyForPreboot : func.

Definition eventRecorder : list field :=
  [ ("start", VFun start);
    ("createOverlay", VFun createOverlay);
    ("getAppRoots", VFun getAppRoots);
    ("handleEvents", VFun handleEvents);
    ("createListenHandler", VFun createListenHandler);
    ("getSelection", VFun getSelection);
    ("createBuffer", VFun createBuffer) ].

Definition getEventRecorderCode : string :=
  let eventRecorderFunctions :=
    (map (fun kv => Js.replace (toString (snd kv)) "common_1." "") eventRecorder
     ++ [toString (VFun getNodeKeyForPreboot)])%list in
  Js.nl ++ Js.nl ++ Js.join (Js.nl ++ Js.nl) eventRecorderFunctions ++ Js.nl ++ Js.nl.

(** The argument an optional parameter receives: [undefined] when left out. *)
Definition optional (customOptions : option value) : value :=
  match customOptions with
  | Some o => o
  | None => VUndefined
  end.

(** [assign({}, defaultOptions, customOptions)], read back as a value. *)
Definition resolveOptions (customOptions : option value) : M value :=
  let* target := newObject in
  let* defaults := load defaultOptions in
  let* opts := assign target [defaults; optional customOptions] in
  load opts.

Definition getInlinePrebootCodeDefinition (customOptions : option value)
  : M string :=
  let* opts := resolveOptions customOptions in
  let* _ := lift (validateOptions opts) in
  let scriptCode := getEventRecorderCode in
  let initStr := toString (VFun init) in
  ret ("var " ++ initFunctionName ++ " = (function() {" ++ Js.nl
       ++ "      " ++ scriptCode ++ Js.nl
       ++ "      return (" ++ Js.replace initStr "common_1." "" ++ ");" ++ Js.nl
       ++ "    })();").

Definition getInlinePrebootCodeInvocation (fuel : nat)
  (customOptions : option value) : M string :=
  let* opts := resolveOptions customOptions in
  let* _ := lift (validateOptions opts) in
  let* optsStr := lift (stringifyWithFunctions fuel opts) in
  ret (initFunctionName ++ "(" ++ optsStr ++ ");").

Definition getInlinePrebootCode (fuel : nat) (customOptions : option value)
  : M string :=
  let* inlineCodeDefinition := getInlinePrebootCodeDefinition customOptions in
  let* inlineCodeInvocation := getInlinePrebootCodeInvocation fuel customOptions in
  ret ("(function() {" ++ Js.nl
       ++ "      " ++ inlineCodeDefinition ++ Js.nl
       ++ "      " ++ inlineCodeInvocation ++ Js.nl
       ++ "    })()").

End Emitters.

(** ** Reference definitions for the serializer

    What the serializer is meant to return, written directly: the JSON text
    of the value in which every function is written by [fn] applied to its
    source text, unquoted. *)

Fixpoint written (fn : string -> string) (v : value) : option string :=
  if isFunctionLike v then Some (fn (toString v))
  else
    match v with
    | VUndefined => None
    | VFun _ => None
    | VNull => Some "null"
    | VBool true => Some "true"
    | VBool false => Some "false"
    | VNum n => Some (Js.decimal n)
    | VStr s => Some (JSON.quote s)
    | VArr items =>
        Some ("[" ++ Js.join ","
                (map (fun x => match written fn x with
                               | Some t => t
                               | None => "null"
                               end) items) ++ "]")
    | VObj fields =>
        Some ("{" ++ Js.join ","
                (flat_map (fun kx => match written fn (snd kx) with
                                     | Some t => [JSON.quote (fst kx) ++ ":" ++ t]
                                     | None => []
                                     end) fields) ++ "}")
    end.

(** What the splice leaves of a function's source text: the text is
    escaped by the encoder, then only its escaped newlines are undone. *)
Definition spliced (src : string) : string :=
  Js.replaceEscapedNewlines (JSON.escape src).

Definition absent (pat s : string) : bool :=
  match Js.find pat s with
  | None => true
  | Some _ => false
  end.

(** No text the encoder writes for [v] (a key, a string, the source of a
    function) holds [pat]. *)
Fixpoint avoids (pat : string) (v : value) : bool :=
  if isFunctionLike v then absent pat (toString v)
  else
    match v with
    | VStr s => absent pat s
    | VArr items => forallb (avoids pat) items
    | VObj fields =>
        forallb (fun kx => absent pat (fst kx) && avoids pat (snd kx)) fields
    | _ => true
    end.



(** No value of [v] passes the replacer's test. *)
Fixpoint literalOnly (v : value) : bool :=
  negb (isFunctionLike v)
  && match v with
     | VArr items => forallb literalOnly items
     | VObj fields => forallb (fun kx => literalOnly (snd kx)) fields
     | _ => true
     end.









(** ** Reference definitions for the options and the emitters *)

(** The module is loaded: [defaultOptions] holds the literal of the source. *)
Definition loaded (st : store) : Prop :=
  nth_error st 0 = Some defaultOptionsFields.

(** The fields of the resolved options: the defaults, overridden. *)
Definition resolved (customOptions : option value) : list field :=
  copyFields defaultOptionsFields (optional customOptions).



(** The outer wrapper of the combined block. *)
Definition combinedBlock (definition invocation : string) : string :=
  "(function() {" ++ Js.nl
  ++ "      " ++ definition ++ Js.nl
  ++ "      " ++ invocation ++ Js.nl
  ++ "    })()".

Definition qualifier : string := "common_1.".

(** [out] is [src] without the qualifier, for a text that holds it at most
    once. *)
Inductive Stripped : string -> string -> Prop :=
| Stripped_none s : Js.lacks qualifier s -> Stripped s s
| Stripped_once a b :
    Js.lacks qualifier a -> Js.lacks qualifier b ->
    Stripped (a ++ qualifier ++ b) (a ++ b).

(** The text holds the qualifier at most once. *)
Definition onceOrNever (s : string) : bool :=
  match Js.find qualifier s with
  | None => true
  | Some n => absent qualifier (Js.drop (n + String.length qualifier) s)
  end.

(** The text of the definition block. *)
Definition definitionBlock (scriptCode initStr : string) : string :=
  "var " ++ initFunctionName ++ " = (function() {" ++ Js.nl
  ++ "      " ++ scriptCode ++ Js.nl
  ++ "      return (" ++ Js.replace initStr "common_1." "" ++ ");" ++ Js.nl
  ++ "    })();".

(** The text of the invocation statement. *)
Definition invocationStatement (optsStr : string) : string :=
  initFunctionName ++ "(" ++ optsStr ++ ");".


(** ** Sample values *)

Module Sample.

(** The configuration of the specification's example. *)
Definition options : value :=
  VObj [ ("appRoot", VStr "app");
         ("buffer", VBool true);
         ("eventSelectors",
           VArr [ VObj [ ("selector", VStr "input");
                         ("events", strs ["change"]) ] ]) ].

(** A registry member as the compiler emits it, with a qualified call. *)
Definition member : func :=
  Func "function start(o) { common_1.getNodeKeyForPreboot(o); }" 1.

Definition helper : func :=
  Func "function getNodeKeyForPreboot(n) { return n.nodeName; }" 1.

(** A helper whose own text holds the qualifier. *)
Definition qualifiedHelper : func :=
  Func "function getNodeKeyForPreboot(n) { return common_1.key(n); }" 1.

(** Two callables of plain text, the first with a line break. *)
Definition action : func :=
  Func ("function (node) {" ++ Js.nl ++ "  node.blur();" ++ Js.nl ++ "}") 1.

Definition guard : func := Func "function (e) { return e.which === 13; }" 1.

Definition refuse : func := Func "function (e) { return false; }" 1.


Definition withCallables : value :=
  VObj [ ("appRoot", VStr "app");
         ("action", VFun action);
         ("keep", VNum 7);
         ("guard", VFun guard) ].

End Sample.

Module Collision.

(** A literal configuration whose selector holds both markers. *)
Definition options : value :=
  VObj [("appRoot", VStr (FUNC_START ++ "abc" ++ FUNC_STOP))].



(** A literal configuration with such an object in a field. *)
Definition duck : value :=
  VObj [ ("appRoot", VStr "app");
         ("x", VObj [("call", VNum 1); ("apply", VNum 1)]) ].

End Collision.

Module Nested.

(** A configuration with a callable inside an event selector. *)
Definition options : value :=
  VObj [ ("appRoot", VStr "app");
         ("eventSelectors",
           VArr [ VObj [ ("selector", VStr "input");
                         ("events", strs ["keyup"]);
                         ("action", VFun Sample.action) ];
                  VObj [ ("selector", VStr "form");
                         ("events", strs ["submit"]);
                         ("action", VFun Sample.refuse) ] ]);
         ("onFreeze", VFun Sample.guard) ].

(** A registry member whose text holds the qualifier twice. *)
Definition twice : func :=
  Func "function h(e) { common_1.a(e); common_1.b(e); }" 1.

End Nested.

(** ** JSON.parse

    The host function that reads a JSON text back, for values of this
    embedding: integers only (a fraction or an exponent is refused), code
    units of one byte (a [\u] escape above [00ff] is refused).  Recursion
    runs on fuel, one unit for each value and each list element read.  A
    member is stored as [obj[key] = v] stores it ([setField]). *)

Module Parse.

Definition isWhitespace (c : ascii) : bool :=
  let n := nat_of_ascii c in
  Nat.eqb n 32 || Nat.eqb n 9 || Nat.eqb n 10 || Nat.eqb n 13.

Fixpoint skipWhitespace (s : string) : string :=
  match s with
  | String c s' => if isWhitespace c then skipWhitespace s' else s
  | "" => ""
  end.

Definition isDigit (c : ascii) : bool :=
  let n := nat_of_ascii c in Nat.leb 48 n && Nat.leb n 57.

(** The digits at the head of a text, and what follows them. *)
Fixpoint spanDigits (s : string) : string * string :=
  match s with
  | String c s' =>
      if isDigit c then let (ds, rest) := spanDigits s' in (String c ds, rest)
      else ("", s)
  | "" => ("", "")
  end.

Definition hexValue (c : ascii) : option nat :=
  let n := nat_of_ascii c in
  if Nat.leb 48 n && Nat.leb n 57 then Some (n - 48)%nat
  else if Nat.leb 97 n && Nat.leb n 102 then Some (n - 87)%nat
  else if Nat.leb 65 n && Nat.leb n 70 then Some (n - 55)%nat
  else None.

Definition consChar (c : ascii) (r : option (string * string))
  : option (string * string) :=
  match r with
  | Some (s, rest) => Some (String c s, rest)
  | None => None
  end.

(** The characters of a string up to its closing quote. *)
Fixpoint parseChars (s : string) : option (string * string) :=
  match s with
  | "" => None
  | String c s' =>
      if Ascii.eqb c Js.dquote then Some ("", s')
      else if Ascii.eqb c Js.backslash then
        match s' with
        | String e s'' =>
            if Ascii.eqb e Js.dquote then consChar Js.dquote (parseChars s'')
            else if Ascii.eqb e Js.backslash then consChar Js.backslash (parseChars s'')
            else if Ascii.eqb e "/" then consChar "/" (parseChars s'')
            else if Ascii.eqb e "b" then consChar (ascii_of_nat 8) (parseChars s'')
            else if Ascii.eqb e "f" then consChar (ascii_of_nat 12) (parseChars s'')
            else if Ascii.eqb e "n" then consChar (ascii_of_nat 10) (parseChars s'')
            else if Ascii.eqb e "r" then consChar (ascii_of_nat 13) (parseChars s'')
            else if Ascii.eqb e "t" then consChar (ascii_of_nat 9) (parseChars s'')
            else if Ascii.eqb e "u" then
              match s'' with
              | String h1 (String h2 (String h3 (String h4 s5))) =>
                  match hexValue h1, hexValue h2, hexValue h3, hexValue h4 with
                  | Some 0%nat, Some 0%nat, Some a, Some b =>
                      consChar (ascii_of_nat (16 * a + b)) (parseChars s5)
                  | _, _, _, _ => None
                  end
              | _ => None
              end
            else None
        | "" => None
        end
      else if Nat.ltb (nat_of_ascii c) 32 then None
      else consChar c (parseChars s')
  end.

(** An integer: an optional minus sign, then [0] or digits that do not
    begin with [0]. *)
Definition parseNumber (s : string) : option (Z * string) :=
  let (negative, digits) :=
    match s with
    | String "-" r => (true, r)
    | _ => (false, s)
    end in
  let (ds, rest) := spanDigits digits in
  match ds with
  | "" => None
  | String "0" (String _ _) => None
  | _ =>
      match rest with
      | String "." _ | String "e" _ | String "E" _ => None
      | _ =>
          match NilEmpty.uint_of_string ds with
          | Some d =>
              Some (if negative then - Z.of_uint d else Z.of_uint d, rest)
          | None => None
          end
      end
  end.

(** [prefix] with the rest of the text. *)
Definition literal (word : string) (s : string) : option string :=
  if prefix word s then Some (Js.drop (String.length word) s) else None.

(** The text behind the character [c], when the text begins with it. *)
Definition startsWith (c : ascii) (s : string) : option string :=
  match s with
  | String x r => if Ascii.eqb x c then Some r else None
  | "" => None
  end.

Fixpoint parseValue (fuel : nat) (s : string) : option (value * string) :=
  match fuel with
  | O => None
  | S fuel' =>
      match skipWhitespace s with
      | String c r =>
          if Ascii.eqb c "{" then
            match startsWith "}" (skipWhitespace r) with
            | Some r' => Some (VObj [], r')
            | None => parseMembers fuel' [] r
            end
          else if Ascii.eqb c "[" then
            match startsWith "]" (skipWhitespace r) with
            | Some r' => Some (VArr [], r')
            | None => parseElements fuel' [] r
            end
          else if Ascii.eqb c Js.dquote then
            match parseChars r with
            | Some (str, r') => Some (VStr str, r')
            | None => None
            end
          else if Ascii.eqb c "t" then
            option_map (pair (VBool true)) (literal "rue" r)
          else if Ascii.eqb c "f" then
            option_map (pair (VBool false)) (literal "alse" r)
          else if Ascii.eqb c "n" then
            option_map (pair VNull) (literal "ull" r)
          else
            match parseNumber (String c r) with
            | Some (n, r') => Some (VNum n, r')
            | None => None
            end
      | "" => None
      end
  end

with parseElements (fuel : nat) (acc : list value) (s : string)
  : option (value * string) :=
  match fuel with
  | O => None
  | S fuel' =>
      match parseValue fuel' s with
      | Some (v, r) =>
          match startsWith "," (skipWhitespace r) with
          | Some r' => parseElements fuel' (acc ++ [v]) r'
          | None =>
              match startsWith "]" (skipWhitespace r) with
              | Some r' => Some (VArr (acc ++ [v]), r')
              | None => None
              end
          end
      | None => None
      end
  end

with parseMembers (fuel : nat) (acc : list (string * value)) (s : string)
  : option (value * string) :=
  match fuel with
  | O => None
  | S fuel' =>
      match startsWith Js.dquote (skipWhitespace s) with
      | Some r =>
          match parseChars r with
          | Some (key, r1) =>
              match startsWith ":" (skipWhitespace r1) with
              | Some r2 =>
                  match parseValue fuel' r2 with
                  | Some (v, r3) =>
                      match startsWith "," (skipWhitespace r3) with
                      | Some r4 => parseMembers fuel' (setField key v acc) r4
                      | None =>
                          match startsWith "}" (skipWhitespace r3) with
                          | Some r4 => Some (VObj (setField key v acc), r4)
                          | None => None
                          end
                      end
                  | None => None
                  end
              | None => None
              end
          | None => None
          end
      | None => None
      end
  end.

(** [JSON.parse(text)]: one value, then nothing but white space. *)
Definition parse (fuel : nat) (text : string) : option value :=
  match parseValue fuel text with
  | Some (v, rest) =>
      match skipWhitespace rest with
      | "" => Some v
      | _ => None
      end
  | None => None
  end.

End Parse.

(** A value that JSON holds as it is: no [undefined], no function, nothing
    the replacer takes for a function, and no key twice in an object. *)
Fixpoint distinct (keys : list string) : bool :=
  match keys with
  | [] => true
  | k :: rest => negb (existsb (String.eqb k) rest) && distinct rest
  end.

Fixpoint representable (v : value) : bool :=
  negb (isFunctionLike v)
  && match v with
     | VUndefined => false
     | VFun _ => false
     | VArr items => forallb representable items
     | VObj fields =>
         forallb (fun kx => representable (snd kx)) fields
         && distinct (map fst fields)
     | _ => true
     end.

(** Fuel that is enough to read the encoding of a value back. *)
Fixpoint weight (v : value) : nat :=
  match v with
  | VArr items => S (List.length items + list_sum (map weight items))
  | VObj fields =>
      S (List.length fields + list_sum (map (fun kx => weight (snd kx)) fields))
  | _ => 1
  end.

(** What may follow a value inside a text: nothing, a comma or a closing
    bracket. *)
Definition delimited (rest : string) : bool :=
  match rest with
  | "" => true
  | String c _ => Ascii.eqb c "," || Ascii.eqb c "]" || Ascii.eqb c "}"
  end.

(** The text of an array element. *)
Definition elementText (x : value) : string :=
  match JSON.stringify (fun _ => None) x with
  | Some t => t
  | None => "null"
  end.

(** The encoding of [v], followed by a delimited text, reads back as [v]
    and leaves the text. *)
Definition readsBack (v : value) : Prop :=
  representable v = true ->
  forall fuel rest,
    (weight v <= fuel)%nat -> delimited rest = true ->
    exists t, JSON.encode v = Some t
              /\ Parse.parseValue fuel (t ++ rest) = Some (v, rest).

(** A character a JSON value begins with. *)
Definition valueHead (c : ascii) : bool :=
  Parse.isDigit c
  || existsb (Ascii.eqb c) (list_ascii_of_string (String Js.dquote "-{[tfn")).

(** ** Induction on values, through the lists of an array and an object *)

Section ValueInduction.

Variable P : value -> Prop.
Hypothesis HUndefined : P VUndefined.
Hypothesis HNull : P VNull.
Hypothesis HBool : forall b, P (VBool b).
Hypothesis HNum : forall n, P (VNum n).
Hypothesis HStr : forall s, P (VStr s).
Hypothesis HArr : forall items, Forall P items -> P (VArr items).
Hypothesis HObj :
  forall fields, Forall (fun kx => P (snd kx)) fields -> P (VObj fields).
Hypothesis HFun : forall f, P (VFun f).

Fixpoint value_nested_ind (v : value) : P v :=
  match v with
  | VUndefined => HUndefined
  | VNull => HNull
  | VBool b => HBool b
  | VNum n => HNum n
  | VStr s => HStr s
  | VArr items =>
      HArr items
        ((fix go (l : list value) : Forall P l :=
            match l with
            | [] => Forall_nil _
            | x :: r => Forall_cons x (value_nested_ind x) (go r)
            end) items)
  | VObj fields =>
      HObj fields
        ((fix go (l : list (string * value)) : Forall (fun kx => P (snd kx)) l :=
            match l with
            | [] => Forall_nil _
            | kx :: r => Forall_cons kx (value_nested_ind (snd kx)) (go r)
            end) fields)
  | VFun f => HFun f
  end.

End ValueInduction.

(** ** The mock factories (common/preboot.mocks)

    [getMockWindow] and [getMockOptions], as the tests use them.  The mock
    window is a new object on every call; it is only read, so it is a
    value here. *)

Definition getMockWindow : value :=
  VObj [("prebootData", VObj []); ("prebootStarted", VBool false)].

(** [assign({}, defaultOptions, {window: getMockWindow()})]. *)
Definition getMockOptions : M reference :=
  let* target := newObject in
  let* defaults := load defaultOptions in
  assign target [defaults; VObj [("window", getMockWindow)]].

(** ** Reference definitions for the merge *)

(** [undefined] or [null]: a source the merge passes over. *)
Definition nullish (v : value) : bool :=
  match v with
  | VUndefined | VNull => true
  | _ => false
  end.

Definition hasKey (k : string) (fs : list field) : bool :=
  existsb (String.eqb k) (map fst fs).

(** The value the sources give to a key: that of the last source that has
    the key. *)
Fixpoint lastDefined (k : string) (sources : list value) : option value :=
  match sources with
  | [] => None
  | s :: rest =>
      match lastDefined k rest with
      | Some v => Some v
      | None => lookup k (ownFields s)
      end
  end.

(** The keys of a source that the output does not have yet. *)
Definition newKeys (output : list field) (source : value) : list string :=
  filter (fun k => negb (hasKey k output)) (map fst (ownFields source)).

(** Every source holds each of its keys once. *)
Definition wellKeyed (sources : list value) : bool :=
  forallb (fun s => distinct (map fst (ownFields s))) sources.
(** ** Facts about the text primitives *)

Module JsFacts.
Import Js.

Lemma app_assoc (a b c : string) : (a ++ b) ++ c = a ++ b ++ c.
Proof. induction a as [|x a IH]; simpl; [reflexivity | now rewrite IH]. Qed.

Lemma app_nil_r (a : string) : a ++ "" = a.
Proof. induction a as [|x a IH]; simpl; [reflexivity | now rewrite IH]. Qed.



Lemma drop_app (a b : string) : drop (String.length a) (a ++ b) = b.
Proof. induction a as [|x a IH]; simpl; [now destruct b | exact IH]. Qed.

Lemma take_all (a : string) : take (String.length a) a = a.
Proof. induction a as [|x a IH]; simpl; [reflexivity | now rewrite IH]. Qed.

Lemma take_drop (n : nat) (s : string) : take n s ++ drop n s = s.
Proof.
  revert s; induction n as [|n IH]; intros [|c s]; simpl; try reflexivity.
  now rewrite IH.
Qed.

Lemma drop_drop (n m : nat) (s : string) : drop n (drop m s) = drop (m + n) s.
Proof.
  revert s; induction m as [|m IH]; intros s; simpl; [reflexivity|].
  destruct s as [|c s]; [now destruct n | apply IH].
Qed.

Lemma prefix_app (p s : string) : prefix p (p ++ s) = true.
Proof.
  induction p as [|x p IH]; simpl; [now destruct s|].
  destruct (ascii_dec x x); [exact IH | congruence].
Qed.

Lemma prefix_split (p s : string) :
  prefix p s = true -> s = p ++ drop (String.length p) s.
Proof.
  revert s; induction p as [|x p IH]; intros s H; simpl.
  - now destruct s.
  - destruct s as [|c s]; simpl in H; [discriminate|].
    destruct (ascii_dec x c); [|discriminate].
    subst; simpl; f_equal; now apply IH.
Qed.

Lemma prefix_cons (x c : ascii) (p s : string) :
  prefix (String x p) (String c s) = true -> x = c /\ prefix p s = true.
Proof. simpl; destruct (ascii_dec x c); [now split | discriminate]. Qed.

Lemma has_app c a b : has c (a ++ b) = has c a || has c b.
Proof. induction a as [|x a IH]; simpl; [reflexivity | now rewrite IH, orb_assoc]. Qed.




Lemma find_cons pat c s :
  find pat (String c s) =
  if prefix pat (String c s) then Some 0%nat else option_map S (find pat s).
Proof. reflexivity. Qed.

Lemma find_nil pat : find pat "" = if prefix pat "" then Some 0%nat else None.
Proof. reflexivity. Qed.


(** Where [find] reports the pattern, the pattern is. *)
Lemma find_split pat s n :
  find pat s = Some n ->
  s = take n s ++ pat ++ drop (n + String.length pat) s.
Proof.
  revert n; induction s as [|x s IH]; intros n.
  - rewrite find_nil. destruct (prefix pat "") eqn:E; [|discriminate].
    intros [= <-]; simpl. now apply prefix_split in E.
  - rewrite find_cons. destruct (prefix pat (String x s)) eqn:E.
    + intros [= <-]. now apply prefix_split in E.
    + destruct (find pat s) as [m|] eqn:F; [|discriminate].
      intros [= <-]; simpl; f_equal; now apply IH.
Qed.



End JsFacts.

Module Occurrence.
Import Js JsFacts.

Lemma lacks_cons pat c s :
  lacks pat (String c s) <-> prefix pat (String c s) = false /\ lacks pat s.
Proof.
  unfold lacks; rewrite find_cons.
  destruct (prefix pat (String c s)); [split; [discriminate | intros [? _]; discriminate]|].
  destruct (find pat s); simpl; split; try tauto; try discriminate.
  intros [_ H]; discriminate.
Qed.

Lemma lacks_nil pat : pat <> "" -> lacks pat "".
Proof. intros H; unfold lacks; simpl. now destruct pat. Qed.

Lemma prefix_nil p : prefix p "" = true -> p = "".
Proof. now destruct p. Qed.

(** A pattern at the head of [u ++ z] lies within [u] or runs over its end. *)
Lemma prefix_app_cases p u z :
  prefix p (u ++ z) = true ->
  prefix p u = true \/ exists w, p = u ++ w /\ w <> "" /\ prefix w z = true.
Proof.
  revert u; induction p as [|c p IH]; intros u H.
  - left; now destruct u.
  - destruct u as [|x u].
    + right; exists (String c p); repeat split; [discriminate | exact H].
    + cbn [append] in H; apply prefix_cons in H as [-> H].
      destruct (IH u H) as [L | (w & -> & Hw & Hz)].
      * left; simpl; now destruct (ascii_dec x x).
      * right; exists w; now repeat split.
Qed.

(** A character outside the pattern separates its occurrences. *)
Lemma prefix_sep pat u c b :
  has c pat = false -> prefix pat (u ++ String c b) = true -> prefix pat u = true.
Proof.
  intros Hc H; destruct (prefix_app_cases _ _ _ H) as [L | (w & -> & Hw & Hz)];
    [exact L|].
  destruct w as [|y w]; [congruence|].
  apply prefix_cons in Hz as [-> _].
  rewrite has_app in Hc; simpl in Hc.
  rewrite Ascii.eqb_refl in Hc; simpl in Hc.
  now rewrite orb_true_r in Hc.
Qed.

Lemma lacks_sep pat a c b :
  has c pat = false -> lacks pat a -> lacks pat b -> lacks pat (a ++ String c b).
Proof.
  intros Hc Ha Hb; induction a as [|x a IH].
  - simpl; apply lacks_cons; split; [|exact Hb].
    destruct (prefix pat (String c b)) eqn:E; [|reflexivity].
    pose proof (prefix_sep pat "" c b Hc E) as P.
    apply prefix_nil in P; subst; discriminate.
  - apply lacks_cons in Ha as [P Ha]; simpl; apply lacks_cons; split; [|now apply IH].
    destruct (prefix pat (String x (a ++ String c b))) eqn:E; [|reflexivity].
    now rewrite (prefix_sep pat (String x a) c b Hc E) in P.
Qed.

Lemma prefix_mono p a b : prefix p a = true -> prefix p (a ++ b) = true.
Proof.
  intros H; rewrite (prefix_split _ _ H), app_assoc; apply prefix_app.
Qed.

Lemma lacks_app_l pat a b : lacks pat (a ++ b) -> lacks pat a.
Proof.
  induction a as [|x a IH]; intros H.
  - unfold lacks in *; rewrite find_nil. destruct (prefix pat "") eqn:E; [|reflexivity].
    apply prefix_nil in E; subst. now destruct b.
  - simpl in H; apply lacks_cons in H as [P H]; apply lacks_cons; split; [|auto].
    destruct (prefix pat (String x a)) eqn:E; [|reflexivity].
    pose proof (prefix_mono _ _ b E) as Q. simpl in Q, P. congruence.
Qed.

Lemma lacks_app_r pat a b : lacks pat (a ++ b) -> lacks pat b.
Proof.
  induction a as [|x a IH]; intros H; [exact H|].
  simpl in H; apply lacks_cons in H as [_ H]; auto.
Qed.





Lemma indexOf_lacks pat s : lacks pat s -> indexOf s pat = -1.
Proof. unfold lacks, indexOf; now intros ->. Qed.

End Occurrence.

Module EscapeFacts.
Import Js JsFacts Occurrence JSON.

Lemma escapeChar_cases c :
  escapeChar c = String c ""
  \/ (exists x r, escapeChar c = String x r)
     /\ forallb (fun x => negb (isMarkerChar x))
          (list_ascii_of_string (escapeChar c)) = true.
Proof.
  destruct c as [[] [] [] [] [] [] [] []];
    solve [ left; reflexivity
          | right; split; [eexists; eexists; reflexivity | reflexivity] ].
Qed.

Lemma has_In x s : has x s = true <-> In x (list_ascii_of_string s).
Proof.
  induction s as [|y s IH]; simpl; [split; [discriminate | tauto]|].
  rewrite orb_true_iff, IH, Ascii.eqb_eq. split; intros [H|H]; auto.
Qed.

(** A text of marker characters holds no other character. *)
Lemma has_foreign p x :
  forallb isMarkerChar (list_ascii_of_string p) = true ->
  isMarkerChar x = false -> has x p = false.
Proof.
  intros Hp Hx. destruct (has x p) eqn:E; [|reflexivity].
  apply has_In in E. rewrite forallb_forall in Hp. rewrite (Hp x E) in Hx.
  discriminate.
Qed.


Section Marker.

Variable pat : string.
Hypothesis marker : markerLike pat = true.

Lemma marker_nonempty : pat <> "".
Proof.
  unfold markerLike in marker; apply andb_true_iff in marker as [H _].
  intros ->; discriminate.
Qed.

Lemma marker_chars : forallb isMarkerChar (list_ascii_of_string pat) = true.
Proof. unfold markerLike in marker; now apply andb_true_iff in marker. Qed.

Lemma marker_avoids x : isMarkerChar x = false -> has x pat = false.
Proof. apply has_foreign, marker_chars. Qed.

Lemma has_suffix x u w : has x (u ++ w) = false -> has x w = false.
Proof. rewrite has_app; intros H; now apply orb_false_iff in H. Qed.

(** Text written with characters foreign to the pattern holds no part of it. *)
Lemma lacks_behind_foreign r t :
  forallb (fun x => negb (has x pat)) (list_ascii_of_string r) = true ->
  lacks pat t -> lacks pat (r ++ t).
Proof.
  induction r as [|c r IH]; intros Hr Ht; [exact Ht|].
  simpl in Hr; apply andb_true_iff in Hr as [Hc Hr].
  change (lacks pat ("" ++ String c (r ++ t))).
  apply lacks_sep; [now destruct (has c pat) | apply lacks_nil, marker_nonempty | auto].
Qed.

Lemma foreign_text r :
  forallb (fun x => negb (isMarkerChar x)) (list_ascii_of_string r) = true ->
  forallb (fun x => negb (has x pat)) (list_ascii_of_string r) = true.
Proof.
  intros H; rewrite forallb_forall in *; intros x Hx.
  rewrite marker_avoids; [reflexivity|].
  specialize (H x Hx). now destruct (isMarkerChar x).
Qed.

Lemma lacks_foreign r :
  forallb (fun x => negb (isMarkerChar x)) (list_ascii_of_string r) = true ->
  lacks pat r.
Proof.
  intros H. rewrite <- (app_nil_r r).
  apply lacks_behind_foreign; [now apply foreign_text | apply lacks_nil, marker_nonempty].
Qed.

Lemma prefix_escape_gen p s :
  forallb isMarkerChar (list_ascii_of_string p) = true ->
  prefix p (escape s) = true -> prefix p s = true.
Proof.
  revert s; induction p as [|c p IH]; intros s Hp H; [now destruct s|].
  destruct s as [|y s]; [discriminate|].
  simpl escape in H.
  cbn [list_ascii_of_string forallb] in Hp. apply andb_true_iff in Hp as [Hc Hp].
  destruct (escapeChar_cases y) as [E | [(x & r & E) F]].
  - rewrite E in H. apply prefix_cons in H as [-> H].
    simpl. destruct (ascii_dec y y); [|congruence]. now apply IH.
  - exfalso. rewrite E in H, F. apply prefix_cons in H as [-> _].
    cbn [list_ascii_of_string forallb] in F. apply andb_true_iff in F as [F _].
    now rewrite Hc in F.
Qed.

(** Escaping a text cannot create an occurrence of the pattern. *)
Lemma lacks_escape s : lacks pat s -> lacks pat (escape s).
Proof.
  induction s as [|y s IH]; intros H; [exact H|].
  apply lacks_cons in H as [P H]. simpl escape.
  destruct (escapeChar_cases y) as [E | [_ F]].
  - rewrite E. apply lacks_cons; split; [|auto].
    destruct (prefix pat (String y (escape s))) eqn:Q; [|reflexivity].
    assert (prefix pat (escape (String y s)) = true) by (simpl; now rewrite E).
    apply prefix_escape_gen in H0; [congruence | exact marker_chars].
  - apply lacks_behind_foreign; [now apply foreign_text | auto].
Qed.

Lemma replaceEscapedNewlines_cons c s :
  replaceEscapedNewlines (String c s) =
  if Ascii.eqb c backslash then
    match s with
    | "" => String c ""
    | String y s' =>
        if Ascii.eqb y "n" then String LF (replaceEscapedNewlines s')
        else String c (replaceEscapedNewlines s)
    end
  else String c (replaceEscapedNewlines s).
Proof.
  destruct s as [|y s']; [simpl; now destruct (Ascii.eqb c backslash)|].
  destruct (Ascii.eqb_spec y "n") as [->|N]; [reflexivity|].
  cbn [replaceEscapedNewlines]. 
  destruct y as [[] [] [] [] [] [] [] []]; try reflexivity. congruence.
Qed.

Lemma prefix_unescape_gen p e :
  has LF p = false ->
  prefix p (replaceEscapedNewlines e) = true -> prefix p e = true.
Proof.
  revert e; induction p as [|c p IH]; intros e Hp H; [now destruct e|].
  cbn [has] in Hp; apply orb_false_iff in Hp as [Hc Hp].
  destruct e as [|x e]; [discriminate|].
  rewrite replaceEscapedNewlines_cons in H.
  assert (G : prefix (String c p) (String x (replaceEscapedNewlines e)) = true ->
              prefix (String c p) (String x e) = true).
  { intros K; apply prefix_cons in K as [-> K]. simpl.
    destruct (ascii_dec x x); [|congruence]. now apply IH. }
  destruct (Ascii.eqb x backslash); [|auto].
  destruct e as [|y e']; [auto|].
  destruct (Ascii.eqb y "n"); [|auto].
  apply prefix_cons in H as [-> _]. now rewrite Ascii.eqb_refl in Hc.
Qed.

Lemma prefix_unescape_cons p x s :
  has LF p = false ->
  prefix p (String x (replaceEscapedNewlines s)) = true ->
  prefix p (String x s) = true.
Proof.
  destruct p as [|c p]; [reflexivity|]. intros Hp K.
  cbn [has] in Hp; apply orb_false_iff in Hp as [_ Hp].
  apply prefix_cons in K as [-> K]. simpl.
  destruct (ascii_dec x x); [|congruence]. now apply prefix_unescape_gen.
Qed.

Lemma marker_no_LF : has LF pat = false.
Proof. apply marker_avoids; reflexivity. Qed.

Lemma lacks_tail c s : lacks pat (String c s) -> lacks pat s.
Proof. intros H; now apply lacks_cons in H. Qed.

(** Undoing escaped newlines cannot create an occurrence of the pattern. *)
Lemma lacks_unescape e : lacks pat e -> lacks pat (replaceEscapedNewlines e).
Proof.
  assert (G : forall n e, (String.length e <= n)%nat -> lacks pat e ->
                          lacks pat (replaceEscapedNewlines e)).
  { induction n as [|n IH]; intros [|x s] L H; simpl in L; try lia;
      try (apply lacks_nil, marker_nonempty).
    assert (D : lacks pat (String x (replaceEscapedNewlines s))).
    { apply lacks_cons; split; [|apply IH; [lia | now apply lacks_tail in H]].
      destruct (prefix pat (String x (replaceEscapedNewlines s))) eqn:Q; [|reflexivity].
      apply lacks_cons in H as [P H].
      apply prefix_unescape_cons in Q; [congruence | apply marker_no_LF]. }
    rewrite replaceEscapedNewlines_cons.
    destruct (Ascii.eqb x backslash); [|exact D].
    destruct s as [|y s']; [exact D|].
    destruct (Ascii.eqb y "n"); [|exact D].
    change (lacks pat ("" ++ String LF (replaceEscapedNewlines s'))).
    apply lacks_sep; [apply marker_no_LF | apply lacks_nil, marker_nonempty|].
    apply IH; [simpl in L; lia | now apply lacks_tail, lacks_tail in H]. }
  intros H; now apply (G (String.length e)).
Qed.

End Marker.

End EscapeFacts.

(** ** The splice loop on marked text *)

Module SpliceFacts.
Import Js JsFacts Occurrence JSON EscapeFacts.







Lemma START_marker : markerLike FUNC_START = true.
Proof. reflexivity. Qed.










Lemma spliceLoop_done fuel str : lacks FUNC_START str ->
  spliceLoop fuel str (indexOf str FUNC_START) = Ok str.
Proof. intros H; rewrite (indexOf_lacks _ _ H). now destruct fuel. Qed.


End SpliceFacts.

(** ** The encoder on values *)

Module EncoderFacts.
Import Js JsFacts Occurrence JSON EscapeFacts SpliceFacts.

Lemma stringify_eq replacer v :
  stringify replacer v =
  match replacer v with
  | Some s => Some (quote s)
  | None =>
      match v with
      | VUndefined => None
      | VFun _ => None
      | VNull => Some "null"
      | VBool true => Some "true"
      | VBool false => Some "false"
      | VNum n => Some (decimal n)
      | VStr s => Some (quote s)
      | VArr items =>
          Some ("[" ++ join ","
                  (map (fun x => match stringify replacer x with
                                 | Some t => t
                                 | None => "null"
                                 end) items) ++ "]")
      | VObj fields =>
          Some ("{" ++ join ","
                  (flat_map (fun kx => match stringify replacer (snd kx) with
                                       | Some t => [quote (fst kx) ++ ":" ++ t]
                                       | None => []
                                       end) fields) ++ "}")
      end
  end.
Proof. destruct v; reflexivity. Qed.

Lemma written_eq fn v :
  written fn v =
  if isFunctionLike v then Some (fn (toString v))
  else
    match v with
    | VUndefined => None
    | VFun _ => None
    | VNull => Some "null"
    | VBool true => Some "true"
    | VBool false => Some "false"
    | VNum n => Some (decimal n)
    | VStr s => Some (quote s)
    | VArr items =>
        Some ("[" ++ join ","
                (map (fun x => match written fn x with
                               | Some t => t
                               | None => "null"
                               end) items) ++ "]")
    | VObj fields =>
        Some ("{" ++ join ","
                (flat_map (fun kx => match written fn (snd kx) with
                                     | Some t => [quote (fst kx) ++ ":" ++ t]
                                     | None => []
                                     end) fields) ++ "}")
    end.
Proof. destruct v; reflexivity. Qed.

Lemma avoids_eq pat v :
  avoids pat v =
  if isFunctionLike v then absent pat (toString v)
  else
    match v with
    | VStr s => absent pat s
    | VArr items => forallb (avoids pat) items
    | VObj fields =>
        forallb (fun kx => absent pat (fst kx) && avoids pat (snd kx)) fields
    | _ => true
    end.
Proof. destruct v; reflexivity. Qed.


Lemma isFunctionLike_VFun f : isFunctionLike (VFun f) = true.
Proof. reflexivity. Qed.

Lemma isFunctionLike_plain v :
  match v with VObj _ | VFun _ => True | _ => False end \/ isFunctionLike v = false.
Proof.
  destruct v; try (left; exact I); right; try reflexivity.
  - unfold isFunctionLike. now destruct b.
  - unfold isFunctionLike; simpl. now rewrite !andb_false_r.
  - unfold isFunctionLike; simpl. now rewrite !andb_false_r.
Qed.

Lemma absent_lacks pat s : absent pat s = true <-> lacks pat s.
Proof.
  unfold absent, lacks. destruct (find pat s); split; congruence.
Qed.




Lemma join_cons2 sep x y l : join sep (x :: y :: l) = x ++ sep ++ join sep (y :: l).
Proof. reflexivity. Qed.









End EncoderFacts.

Module SerializerFacts.
Import Js JsFacts Occurrence JSON EscapeFacts SpliceFacts EncoderFacts.

Lemma uint_foreign d :
  forallb (fun x => negb (isMarkerChar x))
    (list_ascii_of_string (NilEmpty.string_of_uint d)) = true.
Proof. induction d; simpl; auto. Qed.

Lemma decimal_foreign n :
  forallb (fun x => negb (isMarkerChar x)) (list_ascii_of_string (decimal n)) = true.
Proof.
  unfold decimal, NilZero.string_of_int, NilZero.string_of_uint.
  destruct (Z.to_int n) as [d|d]; destruct d; try reflexivity;
    apply (uint_foreign (_ d)) || (cbn [append list_ascii_of_string forallb];
                                   apply (uint_foreign (_ d))).
Qed.

Section Marker.

Variable pat : string.
Hypothesis marker : markerLike pat = true.

Lemma lacks_wrap a x b :
  isMarkerChar a = false -> isMarkerChar b = false -> lacks pat x ->
  lacks pat (String a (x ++ String b "")).
Proof.
  intros Ha Hb Hx. change (lacks pat ("" ++ String a (x ++ String b ""))).
  pose proof (marker_nonempty pat marker) as N.
  apply lacks_sep; [now apply marker_avoids | now apply lacks_nil|].
  apply lacks_sep; [now apply marker_avoids | exact Hx | now apply lacks_nil].
Qed.

Lemma lacks_quote s : lacks pat s -> lacks pat (quote s).
Proof.
  intros H. apply lacks_wrap; try reflexivity. now apply lacks_escape.
Qed.

Lemma lacks_join c l :
  isMarkerChar c = false -> Forall (lacks pat) l ->
  lacks pat (join (String c "") l).
Proof.
  intros Hc; induction 1 as [|x l Hx Hl IH];
    [apply lacks_nil, marker_nonempty, marker|].
  destruct l as [|y l]; [exact Hx|].
  rewrite join_cons2. cbn [append].
  apply lacks_sep; [now apply marker_avoids | exact Hx | exact IH].
Qed.

Let clean (v : value) : Prop :=
  avoids pat v = true ->
  match written spliced v with
  | Some o => lacks pat o
  | None => True
  end.

Lemma clean_items items :
  Forall clean items -> forallb (avoids pat) items = true ->
  Forall (lacks pat)
    (map (fun x => match written spliced x with
                   | Some t => t
                   | None => "null"
                   end) items).
Proof.
  induction 1 as [|x l Hx _ IH]; intros Ha; [constructor|].
  simpl in Ha. apply andb_true_iff in Ha as [Hax Hal].
  simpl. constructor; [|auto].
  specialize (Hx Hax). destruct (written spliced x); [exact Hx|].
  now apply lacks_foreign.
Qed.

Lemma clean_fields fields :
  Forall (fun kx => clean (snd kx)) fields ->
  forallb (fun kx => absent pat (fst kx) && avoids pat (snd kx)) fields = true ->
  Forall (lacks pat)
    (flat_map (fun kx => match written spliced (snd kx) with
                         | Some t => [quote (fst kx) ++ ":" ++ t]
                         | None => []
                         end) fields).
Proof.
  induction 1 as [|[k x] l Hx _ IH]; intros Ha; [constructor|].
  simpl in Ha. apply andb_true_iff in Ha as [Hax Hal].
  apply andb_true_iff in Hax as [Hk Hax].
  simpl. specialize (Hx Hax). simpl in Hx.
  destruct (written spliced x); [|auto].
  simpl. constructor; [|auto].
  change (lacks pat (quote k ++ String ":" s)).
  apply lacks_sep; [now apply marker_avoids | | exact Hx].
  apply lacks_quote. now apply absent_lacks.
Qed.

(** The reference text of a value whose texts lack the pattern lacks it. *)
Lemma written_clean v : clean v.
Proof.
  induction v as [| |b|n|s|items IH|fields IH|f] using value_nested_ind;
    intros Ha; rewrite avoids_eq in Ha; rewrite written_eq;
    (destruct (isFunctionLike _) eqn:F;
     [apply lacks_unescape, lacks_escape; auto; now apply absent_lacks|]);
    try exact I; try (now apply lacks_foreign).
  - destruct b; now apply lacks_foreign.
  - apply lacks_foreign; auto. apply decimal_foreign.
  - apply lacks_quote. now apply absent_lacks.
  - apply lacks_wrap; try reflexivity.
    apply lacks_join; [reflexivity | now apply clean_items].
  - apply lacks_wrap; try reflexivity.
    apply lacks_join; [reflexivity | now apply clean_fields].
Qed.

End Marker.


End SerializerFacts.

Module SpliceText.
Import Js JsFacts Occurrence JSON EscapeFacts SpliceFacts EncoderFacts.










Lemma literalOnly_eq v :
  literalOnly v =
  if isFunctionLike v then literalOnly v
  else match v with
       | VArr items => forallb literalOnly items
       | VObj fields => forallb (fun kx => literalOnly (snd kx)) fields
       | _ => true
       end.
Proof.
  destruct v; simpl; try reflexivity; destruct (isFunctionLike _); reflexivity.
Qed.


Lemma literalOnly_function v : isFunctionLike v = true -> literalOnly v = false.
Proof.
  intros F.
  assert (E : literalOnly v = negb (isFunctionLike v) && literalOnly v).
  { destruct v; simpl; try reflexivity; destruct (isFunctionLike _); reflexivity. }
  now rewrite E, F.
Qed.



(** Without functions the replacer changes nothing, and the reference
    text is the standard encoding. *)
Lemma literal_encode fn v :
  literalOnly v = true ->
  stringify markFunctions v = encode v /\ written fn v = encode v.
Proof.
  unfold encode.
  induction v as [| |b|n|s|items IH|fields IH|f] using value_nested_ind;
    intros Hv; rewrite !stringify_eq, written_eq; unfold markFunctions;
    (destruct (isFunctionLike _) eqn:F;
     [now rewrite (literalOnly_function _ F) in Hv|]);
    try (split; reflexivity); rewrite literalOnly_eq, F in Hv.
  - assert (E : forall x, In x items ->
                  stringify markFunctions x = stringify (fun _ => None) x
                  /\ written fn x = stringify (fun _ => None) x).
    { intros x Hx. rewrite Forall_forall in IH. rewrite forallb_forall in Hv.
      exact (IH x Hx (Hv x Hx)). }
    split; do 4 f_equal; apply map_ext_in; intros x Hx;
      destruct (E x Hx) as [E1 E2]; unfold markFunctions in E1;
      now rewrite ?E1, ?E2.
  - clear F. split; do 4 f_equal.
    + induction fields as [|[k x] l IHl]; [reflexivity|].
      simpl in Hv. apply andb_true_iff in Hv as [Hx Hl].
      inversion IH as [|? ? Hhd Htl]; subst. simpl in Hhd.
      cbn [flat_map snd fst].
      destruct (Hhd Hx) as [E1 _]. unfold markFunctions in E1. rewrite E1.
      f_equal. apply IHl; assumption.
    + induction fields as [|[k x] l IHl]; [reflexivity|].
      simpl in Hv. apply andb_true_iff in Hv as [Hx Hl].
      inversion IH as [|? ? Hhd Htl]; subst. simpl in Hhd.
      cbn [flat_map snd fst].
      destruct (Hhd Hx) as [_ ->]. f_equal. apply IHl; assumption.
Qed.

Lemma encode_lacks pat v :
  markerLike pat = true -> literalOnly v = true -> avoids pat v = true ->
  match encode v with
  | Some t => lacks pat t
  | None => True
  end.
Proof.
  intros Hp Hl Ha.
  destruct (literal_encode spliced v Hl) as [_ <-].
  exact (SerializerFacts.written_clean pat Hp v Ha).
Qed.

(** Without functions and without the start marker in any text, the loop
    has nothing to do: the serializer returns the standard encoding. *)
Lemma stringifyWithFunctions_literal fuel v :
  literalOnly v = true -> avoids FUNC_START v = true ->
  stringifyWithFunctions fuel v =
  match encode v with
  | Some t => Ok t
  | None => Throw undefinedText
  end.
Proof.
  intros Hl Ha. unfold stringifyWithFunctions.
  destruct (literal_encode spliced v Hl) as [-> _].
  pose proof (encode_lacks FUNC_START v START_marker Hl Ha) as L.
  destruct (encode v) as [t|]; [|reflexivity].
  now apply spliceLoop_done.
Qed.

End SpliceText.

(** ** The options and the store *)

Module OptionFacts.
Import Js JsFacts.

Lemma lookup_setField k k' v fs :
  lookup k (setField k' v fs) = if String.eqb k k' then Some v else lookup k fs.
Proof.
  induction fs as [|[k0 x] fs IH]; simpl; [reflexivity|].
  destruct (String.eqb_spec k' k0) as [->|N]; simpl.
  - now destruct (String.eqb k k0).
  - rewrite IH. destruct (String.eqb_spec k k0) as [->|N0]; [|reflexivity].
    apply String.eqb_neq in N. now rewrite String.eqb_sym, N.
Qed.

Lemma lookup_fold k src out :
  lookup k (fold_left (fun o kv => setField (fst kv) (snd kv) o) src out) =
  match lookup k (rev src) with
  | Some v => Some v
  | None => lookup k out
  end.
Proof.
  revert out; induction src as [|[k0 x] src IH]; intros out; [reflexivity|].
  simpl. rewrite IH, lookup_setField.
  assert (L : forall a b, lookup k (a ++ b)%list =
                          match lookup k a with Some v => Some v | None => lookup k b end).
  { clear. induction a as [|[k1 y] a IHa]; intros b; simpl; [reflexivity|].
    destruct (String.eqb k k1); [reflexivity | apply IHa]. }
  rewrite L. destruct (lookup k (rev src)); [reflexivity|]. simpl.
  now destruct (String.eqb k k0).
Qed.

Lemma lookup_not_in k (fs : list field) :
  ~ In k (map fst fs) -> lookup k fs = None.
Proof.
  induction fs as [|[k0 x] fs IH]; simpl; [reflexivity|].
  intros H. destruct (String.eqb_spec k k0) as [->|N]; [tauto|].
  apply IH. tauto.
Qed.

Lemma lookup_app k (a b : list field) :
  lookup k (a ++ b)%list =
  match lookup k a with Some v => Some v | None => lookup k b end.
Proof.
  induction a as [|[k1 y] a IHa]; simpl; [reflexivity|].
  destruct (String.eqb k k1); [reflexivity | apply IHa].
Qed.

(** An object holds a key once, so the order of the scan does not matter. *)
Lemma lookup_rev k (fs : list field) :
  NoDup (map fst fs) -> lookup k (rev fs) = lookup k fs.
Proof.
  induction fs as [|[k0 x] fs IH]; simpl; [reflexivity|].
  intros H. inversion H as [|? ? Hn Hd]; subst.
  rewrite lookup_app, (IH Hd). simpl.
  destruct (String.eqb_spec k k0) as [->|N].
  - now rewrite (lookup_not_in k0 fs Hn).
  - now destruct (lookup k fs).
Qed.

Lemma distinct_NoDup keys : distinct keys = true -> NoDup keys.
Proof.
  induction keys as [|k l IH]; [constructor|].
  cbn [distinct]. intros H. apply andb_true_iff in H as [Hk Hl].
  constructor; [|auto]. intros Hin. apply negb_true_iff in Hk.
  assert (existsb (String.eqb k) l = true).
  { apply existsb_exists. exists k. split; [exact Hin | apply String.eqb_refl]. }
  congruence.
Qed.

Lemma lookup_copyFields k out source :
  NoDup (map fst (ownFields source)) ->
  lookup k (copyFields out source) =
  match lookup k (ownFields source) with
  | Some v => Some v
  | None => lookup k out
  end.
Proof. intros H. unfold copyFields. now rewrite lookup_fold, lookup_rev. Qed.

Lemma deref_new (st : store) fs : deref (st ++ [fs])%list (List.length st) = fs.
Proof.
  unfold deref. rewrite app_nth2 by lia. now rewrite Nat.sub_diag.
Qed.

Lemma update_new (st : store) fs gs :
  update (List.length st) gs (st ++ [fs])%list = (st ++ [gs])%list.
Proof. induction st as [|o st IH]; simpl; [reflexivity | now rewrite IH]. Qed.

Lemma deref_old (st : store) fs a :
  (a < List.length st)%nat -> deref (st ++ [fs])%list a = deref st a.
Proof. intros H. unfold deref. now rewrite app_nth1. Qed.

Lemma loaded_deref st : loaded st -> deref st 0 = defaultOptionsFields.
Proof. unfold loaded, deref. destruct st; simpl; congruence. Qed.

Lemma loaded_app st fs : loaded st -> loaded (st ++ [fs])%list.
Proof. unfold loaded. destruct st; simpl; congruence. Qed.

Lemma loaded_length st : loaded st -> (0 < List.length st)%nat.
Proof. unfold loaded. destruct st; simpl; [discriminate | lia]. Qed.

Lemma copy_defaults : copyFields [] (VObj defaultOptionsFields) = defaultOptionsFields.
Proof. reflexivity. Qed.

(** Resolving the options adds one object to the store, the defaults
    overridden by the custom options, and touches no other. *)
Lemma resolveOptions_run customOptions st :
  loaded st ->
  resolveOptions customOptions st =
  (Ok (VObj (resolved customOptions)), (st ++ [resolved customOptions])%list).
Proof.
  intros L. unfold resolveOptions, bind, newObject, load, defaultOptions, assign.
  rewrite deref_old by (now apply loaded_length).
  rewrite (loaded_deref st L), deref_new, update_new, deref_new.
  cbn [fold_left]. rewrite copy_defaults. reflexivity.
Qed.


End OptionFacts.

(** ** The emitters on a loaded store *)

Module LoopFacts.

Lemma spliceLoop_more fuel fuel' str i s :
  spliceLoop fuel str i = Ok s -> (fuel <= fuel')%nat ->
  spliceLoop fuel' str i = Ok s.
Proof.
  revert fuel' str i; induction fuel as [|fuel IH]; intros fuel' str i H L.
  - simpl in H. destruct (i >=? 0) eqn:G; [discriminate|].
    destruct fuel'; simpl; now rewrite G.
  - destruct fuel' as [|fuel']; [lia|].
    simpl in *. destruct (i >=? 0); [|exact H].
    apply IH; [exact H | lia].
Qed.




Lemma stringifyWithFunctions_more fuel fuel' v s :
  stringifyWithFunctions fuel v = Ok s -> (fuel <= fuel')%nat ->
  stringifyWithFunctions fuel' v = Ok s.
Proof.
  unfold stringifyWithFunctions.
  destruct (JSON.stringify markFunctions v); [|discriminate].
  apply spliceLoop_more.
Qed.


Lemma validateOptions_cases opts :
  validateOptions opts = Ok tt \/ validateOptions opts = Throw (Error appRootMissing).
Proof. unfold validateOptions. destruct (_ || _); auto. Qed.


End LoopFacts.

Section EmitterFacts.
Import Js JsFacts OptionFacts.

Variables start createOverlay getAppRoots handleEvents createListenHandler
  getSelection createBuffer init getNodeKeyForPreboot : func.

Let definition :=
  getInlinePrebootCodeDefinition start createOverlay getAppRoots handleEvents
    createListenHandler getSelection createBuffer init getNodeKeyForPreboot.
Let combined :=
  getInlinePrebootCode start createOverlay getAppRoots handleEvents
    createListenHandler getSelection createBuffer init getNodeKeyForPreboot.
Let recorderCode :=
  getEventRecorderCode start createOverlay getAppRoots handleEvents
    createListenHandler getSelection createBuffer getNodeKeyForPreboot.

Lemma definition_run customOptions st :
  loaded st ->
  definition customOptions st =
  (match validateOptions (VObj (resolved customOptions)) with
   | Ok _ => Ok (definitionBlock recorderCode (source init))
   | Throw e => Throw e
   | OutOfFuel => OutOfFuel
   end, (st ++ [resolved customOptions])%list).
Proof.
  intros L. unfold definition, getInlinePrebootCodeDefinition, bind at 1.
  rewrite (resolveOptions_run _ _ L). unfold bind, lift, ret.
  now destruct (validateOptions _).
Qed.

Lemma invocation_run fuel customOptions st :
  loaded st ->
  getInlinePrebootCodeInvocation fuel customOptions st =
  (match validateOptions (VObj (resolved customOptions)) with
   | Ok _ =>
       match stringifyWithFunctions fuel (VObj (resolved customOptions)) with
       | Ok optsStr => Ok (invocationStatement optsStr)
       | Throw e => Throw e
       | OutOfFuel => OutOfFuel
       end
   | Throw e => Throw e
   | OutOfFuel => OutOfFuel
   end, (st ++ [resolved customOptions])%list).
Proof.
  intros L. unfold getInlinePrebootCodeInvocation, bind at 1.
  rewrite (resolveOptions_run _ _ L). unfold bind, lift, ret.
  destruct (validateOptions _); try reflexivity.
  now destruct (stringifyWithFunctions _ _).
Qed.

Lemma combined_run fuel customOptions st :
  loaded st ->
  fst (combined fuel customOptions st) =
  match fst (definition customOptions st),
        fst (getInlinePrebootCodeInvocation fuel customOptions st) with
  | Ok d, Ok i => Ok (combinedBlock d i)
  | Ok _, Throw e => Throw e
  | Ok _, OutOfFuel => OutOfFuel
  | Throw e, _ => Throw e
  | OutOfFuel, _ => OutOfFuel
  end.
Proof.
  intros L. unfold combined, getInlinePrebootCode, bind at 1.
  fold definition.
  rewrite (definition_run _ _ L), (invocation_run _ _ _ L).
  cbn [fst].
  destruct (validateOptions _) as [[]|e|] eqn:V; try reflexivity.
  unfold bind.
  rewrite (invocation_run _ _ _ (loaded_app _ _ L)), V.
  now destruct (stringifyWithFunctions _ _).
Qed.

End EmitterFacts.

(** * The claims about the options and the emitters *)

Section EmitterClaims.
Import Js JsFacts OptionFacts LoopFacts.

Variables start createOverlay getAppRoots handleEvents createListenHandler
  getSelection createBuffer init getNodeKeyForPreboot : func.

Let definition :=
  getInlinePrebootCodeDefinition start createOverlay getAppRoots handleEvents
    createListenHandler getSelection createBuffer init getNodeKeyForPreboot.
Let invocation := getInlinePrebootCodeInvocation.
Let combined :=
  getInlinePrebootCode start createOverlay getAppRoots handleEvents
    createListenHandler getSelection createBuffer init getNodeKeyForPreboot.

Let definition_at := definition_run start createOverlay getAppRoots handleEvents
    createListenHandler getSelection createBuffer init getNodeKeyForPreboot.
Let combined_at := combined_run start createOverlay getAppRoots handleEvents
    createListenHandler getSelection createBuffer init getNodeKeyForPreboot.



(** C7. On a loaded module the combined emitter returns the texts of the
    definition emitter and of the invocation emitter for the same options,
    in that order, inside one self-invoking wrapper; it fails as the first
    of the two that fails. *)
Theorem combined_nests_definition_and_invocation
  (fuel : nat) (customOptions : option value) (st : store) :
  loaded st ->
  fst (combined fuel customOptions st) =
  match fst (definition customOptions st),
        fst (invocation fuel customOptions st) with
  | Ok d, Ok i =>
      Ok ("(function() {" ++ nl ++ "      " ++ d ++ nl
          ++ "      " ++ i ++ nl ++ "    })()")
  | Ok _, Throw e => Throw e
  | Ok _, OutOfFuel => OutOfFuel
  | Throw e, _ => Throw e
  | OutOfFuel, _ => OutOfFuel
  end.
Proof. intros L. exact (combined_at fuel customOptions st L). Qed.

(** C8. The emitters read the store only for [defaultOptions] and write
    only into an object of their own: on any two loaded stores they return
    the same text for the same options, they leave every object that was
    there as it was, and a second call on the store the first has left
    returns the same text again.  The serializer is a function of its
    argument: the text it returns does not depend on the fuel. *)
Theorem emitters_deterministic
  (fuel fuel' : nat) (customOptions : option value) (st st' : store) :
  loaded st -> loaded st' ->
  fst (definition customOptions st) = fst (definition customOptions st')
  /\ fst (invocation fuel customOptions st) = fst (invocation fuel customOptions st')
  /\ fst (definition customOptions (snd (definition customOptions st)))
     = fst (definition customOptions st)
  /\ fst (invocation fuel customOptions (snd (invocation fuel customOptions st)))
     = fst (invocation fuel customOptions st)
  /\ firstn (List.length st) (snd (definition customOptions st)) = st
  /\ firstn (List.length st) (snd (invocation fuel customOptions st)) = st
  /\ (forall v s s',
        stringifyWithFunctions fuel v = Ok s ->
        stringifyWithFunctions fuel' v = Ok s' -> s = s').
Proof.
  intros L L'. unfold definition, invocation.
  rewrite !(definition_at _ _ L), (definition_at _ _ L').
  rewrite !(invocation_run _ _ _ L), (invocation_run _ _ _ L').
  cbn [fst snd].
  rewrite (definition_at _ _ (loaded_app _ _ L)).
  rewrite (invocation_run _ _ _ (loaded_app _ _ L)). cbn [fst].
  repeat split; try reflexivity;
    try (rewrite firstn_app, Nat.sub_diag, firstn_all; cbn [firstn];
         apply List.app_nil_r).
  intros v s s' H H'. destruct (Nat.le_ge_cases fuel fuel') as [G|G].
  - rewrite (stringifyWithFunctions_more _ _ _ _ H G) in H'. congruence.
  - rewrite (stringifyWithFunctions_more _ _ _ _ H' G) in H. congruence.
Qed.


End EmitterClaims.

(** ** A start marker without a stop marker *)

Module UnmatchedFacts.
Import Js JsFacts Occurrence SpliceFacts.










End UnmatchedFacts.

(** ** The qualifier in a captured text *)

Module QualifierFacts.
Import Js JsFacts Occurrence.

Lemma find_first_lacks pat s n :
  pat <> "" -> find pat s = Some n -> lacks pat (take n s).
Proof.
  intros Hp. revert n; induction s as [|c s IH]; intros n.
  - rewrite find_nil. destruct (prefix pat ""); [|discriminate].
    intros [= <-]. now apply lacks_nil.
  - rewrite find_cons. destruct (prefix pat (String c s)) eqn:E.
    + intros [= <-]. now apply lacks_nil.
    + destruct (find pat s) as [m|] eqn:F; [|discriminate].
      intros [= <-]. cbn [take]. apply lacks_cons. split; [|now apply IH].
      destruct (prefix pat (String c (take m s))) eqn:Q; [|reflexivity].
      apply (prefix_mono _ _ (drop m s)) in Q. cbn [append] in Q.
      rewrite take_drop in Q. congruence.
Qed.

(** What [replace] makes of a text that holds the qualifier at most once. *)
Lemma replace_Stripped s :
  onceOrNever s = true -> Stripped s (replace s qualifier "").
Proof.
  unfold onceOrNever, replace.
  destruct (find qualifier s) as [n|] eqn:F; intros H.
  - pose proof (find_split _ _ _ F) as E.
    change ("" ++ drop (n + String.length qualifier) s)
      with (drop (n + String.length qualifier) s).
    rewrite E at 1. constructor.
    + apply find_first_lacks; [discriminate | exact F].
    + now apply EncoderFacts.absent_lacks.
  - now constructor.
Qed.

End QualifierFacts.

(** * The claims about the serializer *)

Section SerializerClaims.
Import Js JsFacts Occurrence JSON EscapeFacts SpliceFacts EncoderFacts
  SerializerFacts SpliceText LoopFacts OptionFacts UnmatchedFacts.








End SerializerClaims.

(** * The claims about the invocation and the recorder code *)

Section AssemblyClaims.
Import Js JsFacts Occurrence JSON EscapeFacts SpliceFacts EncoderFacts
  SerializerFacts SpliceText LoopFacts OptionFacts UnmatchedFacts QualifierFacts.



(** C6 (as stated) fails: the text of the helper is appended as it was
    captured, so a qualifier in it is in the recorder code. *)
Lemma helper_text_keeps_qualifier :
  find qualifier
    (getEventRecorderCode Sample.member Sample.member Sample.member
       Sample.member Sample.member Sample.member Sample.member
       Sample.qualifiedHelper) <> None
  /\ find qualifier (source Sample.qualifiedHelper) <> None.
Proof. split; vm_compute; discriminate. Qed.

(** C6 (amended). When each registry member's text holds the qualifier at
    most once, the recorder code is, between two blank lines at either
    end, the members' texts without the qualifier, in the order of the
    registry, then the text of the node-key helper as captured, each
    separated from the next by a blank line. *)
Theorem recorder_code_members_then_helper
  (start createOverlay getAppRoots handleEvents createListenHandler
     getSelection createBuffer getNodeKeyForPreboot : func) :
  let registry := [start; createOverlay; getAppRoots; handleEvents;
                   createListenHandler; getSelection; createBuffer] in
  forallb (fun f => onceOrNever (source f)) registry = true ->
  exists texts,
    Forall2 Stripped (map source registry) texts
    /\ getEventRecorderCode start createOverlay getAppRoots handleEvents
         createListenHandler getSelection createBuffer getNodeKeyForPreboot
       = nl ++ nl
         ++ join (nl ++ nl) (texts ++ [source getNodeKeyForPreboot])%list
         ++ nl ++ nl.
Proof.
  intros registry H.
  exists (map (fun f => replace (source f) qualifier "") registry). split.
  - unfold registry in *. cbn [forallb] in H.
    repeat (apply andb_true_iff in H as [?H H]).
    cbn [map]. repeat constructor; now apply replace_Stripped.
  - reflexivity.
Qed.

End AssemblyClaims.

(** ** Reading the encoding back *)

Module ParseFacts.
Import Js JsFacts JSON Parse.

Lemma consChar_Some c s rest :
  consChar c (Some (s, rest)) = Some (String c s, rest).
Proof. reflexivity. Qed.

Lemma parseChars_escapeChar c r :
  parseChars (escapeChar c ++ r) = consChar c (parseChars r).
Proof. destruct c as [[] [] [] [] [] [] [] []]; reflexivity. Qed.

(** The characters of an escaped text, read back. *)
Lemma parseChars_escape s rest :
  parseChars (escape s ++ String dquote rest) = Some (s, rest).
Proof.
  induction s as [|c s IH]; [reflexivity|].
  cbn [escape]. now rewrite app_assoc, parseChars_escapeChar, IH.
Qed.

Lemma parseChars_quote s rest :
  exists r, quote s ++ rest = String dquote r /\ parseChars r = Some (s, rest).
Proof.
  unfold quote. exists (escape s ++ String dquote rest). split.
  - cbn [append]. now rewrite app_assoc.
  - apply parseChars_escape.
Qed.

Lemma delimited_head rest :
  delimited rest = true ->
  match rest with
  | "" => True
  | String c _ =>
      isDigit c = false /\ c <> "."%char /\ c <> "e"%char /\ c <> "E"%char
      /\ isWhitespace c = false
  end.
Proof.
  destruct rest as [|c r]; [trivial|]. unfold delimited.
  destruct c as [[] [] [] [] [] [] [] []]; try discriminate; intros _;
    repeat split; discriminate.
Qed.

Lemma spanDigits_uint d rest :
  match rest with "" => True | String c _ => isDigit c = false end ->
  spanDigits (NilEmpty.string_of_uint d ++ rest)
  = (NilEmpty.string_of_uint d, rest).
Proof.
  intros H. induction d; cbn [NilEmpty.string_of_uint append spanDigits];
    try (change (isDigit _) with true; cbv iota; now rewrite IHd).
  destruct rest as [|c r]; [reflexivity|]. cbn [spanDigits]. now rewrite H.
Qed.

Lemma delimited_cases rest :
  delimited rest = true ->
  rest = "" \/ exists r, rest = String "," r \/ rest = String "]" r
                        \/ rest = String "}" r.
Proof.
  destruct rest as [|c r]; [now left|]. unfold delimited. intros H. right.
  exists r. destruct c as [[] [] [] [] [] [] [] []]; try discriminate; auto.
Qed.

Lemma to_uint_head p :
  Pos.to_uint p <> Decimal.Nil /\ forall d, Pos.to_uint p <> Decimal.D0 d.
Proof.
  split; [apply DecimalPos.Unsigned.to_uint_nonnil|]. intros d E.
  pose proof (DecimalPos.Unsigned.to_of (Pos.to_uint p)) as T.
  rewrite DecimalPos.Unsigned.of_to in T. cbn [N.to_uint] in T.
  pose proof (DecimalPos.Unsigned.to_uint_nonzero p) as Z.
  assert (N : Decimal.nzhead (Pos.to_uint p) <> Decimal.Nil).
  { intros N. apply Z. rewrite T at 1. unfold Decimal.unorm. now rewrite N. }
  rewrite (DecimalFacts.unorm_nzhead _ N) in T.
  rewrite E in T at 1. symmetry in T. revert T. apply DecimalFacts.nzhead_nonzero.
Qed.

Lemma parseNumber_digits d rest :
  d <> Decimal.Nil -> (forall d', d <> Decimal.D0 d') -> delimited rest = true ->
  parseNumber (NilEmpty.string_of_uint d ++ rest) = Some (Z.of_uint d, rest)
  /\ parseNumber (String "-" (NilEmpty.string_of_uint d ++ rest))
     = Some (- Z.of_uint d, rest).
Proof.
  intros N Z H.
  assert (S : spanDigits (NilEmpty.string_of_uint d ++ rest)
              = (NilEmpty.string_of_uint d, rest)).
  { apply spanDigits_uint. apply delimited_head in H.
    destruct rest; [trivial | tauto]. }
  assert (U := NilEmpty.usu d).
  destruct (delimited_cases rest H) as [ -> | (r & [ -> | [ -> | -> ] ]) ];
    destruct d; try congruence; try (now destruct (Z d));
    unfold parseNumber;
    cbn [NilEmpty.string_of_uint append] in *;
    rewrite S; rewrite U; split; reflexivity.
Qed.

(** The decimal text of an integer, read back. *)
Lemma parseNumber_decimal n rest :
  delimited rest = true -> parseNumber (decimal n ++ rest) = Some (n, rest).
Proof.
  intros H. unfold decimal. destruct n as [|p|p]; cbn [Z.to_int].
  - destruct (delimited_cases rest H) as [ -> | (r & [ -> | [ -> | -> ] ]) ]; reflexivity.
  - destruct (to_uint_head p) as [N Z].
    destruct (parseNumber_digits _ rest N Z H) as [E _].
    assert (F : Z.of_uint (Pos.to_uint p) = Z.pos p).
    { unfold Z.of_uint. now rewrite DecimalPos.Unsigned.of_to. }
    rewrite F in E. cbn [NilZero.string_of_int]. unfold NilZero.string_of_uint.
    destruct (Pos.to_uint p); try congruence; exact E.
  - destruct (to_uint_head p) as [N Z].
    destruct (parseNumber_digits _ rest N Z H) as [_ E].
    assert (F : Z.of_uint (Pos.to_uint p) = Z.pos p).
    { unfold Z.of_uint. now rewrite DecimalPos.Unsigned.of_to. }
    rewrite F in E. cbn [NilZero.string_of_int]. unfold NilZero.string_of_uint.
    cbn [append]. destruct (Pos.to_uint p); try congruence; exact E.
Qed.

Lemma decimal_head n :
  exists c r, decimal n = String c r /\ (isDigit c = true \/ c = "-"%char).
Proof.
  unfold decimal. destruct n as [|p|p]; cbn [Z.to_int].
  - exists "0"%char, "". split; [reflexivity | now left].
  - destruct (to_uint_head p) as [N _]. cbn [NilZero.string_of_int].
    unfold NilZero.string_of_uint.
    destruct (Pos.to_uint p); try congruence;
      cbn [NilEmpty.string_of_uint]; eexists; eexists;
      (split; [reflexivity | now left]).
  - eexists; eexists. split; [reflexivity | now right].
Qed.

Lemma valueHead_facts c :
  valueHead c = true ->
  isWhitespace c = false /\ Ascii.eqb c "]" = false
  /\ Ascii.eqb c "}" = false /\ Ascii.eqb c "," = false.
Proof.
  destruct c as [[] [] [] [] [] [] [] []]; try discriminate; intros _;
    repeat split; reflexivity.
Qed.

Lemma representable_eq v :
  representable v =
  negb (isFunctionLike v)
  && match v with
     | VUndefined => false
     | VFun _ => false
     | VArr items => forallb representable items
     | VObj fields =>
         forallb (fun kx => representable (snd kx)) fields
         && distinct (map fst fields)
     | _ => true
     end.
Proof. destruct v; reflexivity. Qed.

(** The encoding of a value begins with a character of a value. *)
Lemma encode_head v t :
  encode v = Some t -> exists c r, t = String c r /\ valueHead c = true.
Proof.
  unfold encode. rewrite EncoderFacts.stringify_eq.
  destruct v as [| |[]|n|s|items|fields|f]; try discriminate; intros [= <-];
    try (eexists; eexists; split; reflexivity).
  destruct (decimal_head n) as (c & r & -> & H).
  exists c, r. split; [reflexivity|].
  destruct H as [H | ->]; [|reflexivity]. unfold valueHead. now rewrite H.
Qed.

Lemma parseValue_number f c r :
  isDigit c = true \/ c = "-"%char ->
  parseValue (S f) (String c r) =
  match parseNumber (String c r) with
  | Some (n, r') => Some (VNum n, r')
  | None => None
  end.
Proof.
  destruct c as [[] [] [] [] [] [] [] []]; intros [H|H]; try discriminate;
    reflexivity.
Qed.

Lemma parseValue_string f r :
  parseValue (S f) (String dquote r) =
  match parseChars r with
  | Some (str, r') => Some (VStr str, r')
  | None => None
  end.
Proof. reflexivity. Qed.

Lemma skipWhitespace_head c r :
  isWhitespace c = false -> skipWhitespace (String c r) = String c r.
Proof. intros H. simpl. now rewrite H. Qed.

Lemma parseValue_array f r :
  parseValue (S f) (String "[" r) =
  match startsWith "]" (skipWhitespace r) with
  | Some r' => Some (VArr [], r')
  | None => parseElements f [] r
  end.
Proof. reflexivity. Qed.

Lemma parseValue_object f r :
  parseValue (S f) (String "{" r) =
  match startsWith "}" (skipWhitespace r) with
  | Some r' => Some (VObj [], r')
  | None => parseMembers f [] r
  end.
Proof. reflexivity. Qed.

Lemma parseElements_S f acc s :
  parseElements (S f) acc s =
  match parseValue f s with
  | Some (v, r) =>
      match startsWith "," (skipWhitespace r) with
      | Some r' => parseElements f (acc ++ [v]) r'
      | None =>
          match startsWith "]" (skipWhitespace r) with
          | Some r' => Some (VArr (acc ++ [v]), r')
          | None => None
          end
      end
  | None => None
  end.
Proof. reflexivity. Qed.

Lemma parseMembers_S f acc s :
  parseMembers (S f) acc s =
  match startsWith dquote (skipWhitespace s) with
  | Some r =>
      match parseChars r with
      | Some (key, r1) =>
          match startsWith ":" (skipWhitespace r1) with
          | Some r2 =>
              match parseValue f r2 with
              | Some (v, r3) =>
                  match startsWith "," (skipWhitespace r3) with
                  | Some r4 => parseMembers f (setField key v acc) r4
                  | None =>
                      match startsWith "}" (skipWhitespace r3) with
                      | Some r4 => Some (VObj (setField key v acc), r4)
                      | None => None
                      end
                  end
              | None => None
              end
          | None => None
          end
      | None => None
      end
  | None => None
  end.
Proof. reflexivity. Qed.

(** A text that begins with a value is neither empty nor closed. *)
Lemma startsWith_value c r close :
  valueHead c = true -> (close = "]" \/ close = "}")%char ->
  startsWith close (skipWhitespace (String c r)) = None.
Proof.
  intros H C. destruct (valueHead_facts c H) as (W & B1 & B2 & _).
  rewrite (skipWhitespace_head _ _ W). unfold startsWith.
  destruct C as [-> | ->]; now rewrite ?B1, ?B2.
Qed.

End ParseFacts.

Module RoundTrip.
Import Js JsFacts JSON Parse ParseFacts.

Ltac read_separator :=
  rewrite ?skipWhitespace_head by reflexivity; unfold startsWith;
  repeat match goal with
         | |- context [Ascii.eqb ?a ?b] =>
             let v := eval vm_compute in (Ascii.eqb a b) in
             change (Ascii.eqb a b) with v
         end;
  cbv iota.

Lemma quote_app k X : quote k ++ X = String dquote (escape k ++ String dquote X).
Proof. unfold quote. cbn [append]. now rewrite app_assoc. Qed.

Lemma representable_encodes x :
  representable x = true -> exists t, stringify (fun _ => None) x = Some t.
Proof.
  rewrite representable_eq, EncoderFacts.stringify_eq. intros H.
  apply andb_true_iff in H as [_ H].
  destruct x as [| |[]|n|s|items|fields|f]; try discriminate; eexists; reflexivity.
Qed.

Lemma members_map fields :
  forallb (fun kx => representable (snd kx)) fields = true ->
  flat_map (fun kx => match stringify (fun _ => None) (snd kx) with
                      | Some t => [quote (fst kx) ++ ":" ++ t]
                      | None => []
                      end) fields
  = map (fun kx => quote (fst kx) ++ ":" ++ elementText (snd kx)) fields.
Proof.
  induction fields as [|[k x] l IH]; [reflexivity|].
  cbn [forallb flat_map map fst snd]. intros H.
  apply andb_true_iff in H as [Hx Hl]. rewrite (IH Hl).
  destruct (representable_encodes x Hx) as [t E].
  unfold elementText. now rewrite E.
Qed.

Lemma readsBack_element x f rest :
  readsBack x -> representable x = true -> (weight x <= f)%nat ->
  delimited rest = true ->
  parseValue f (elementText x ++ rest) = Some (x, rest).
Proof.
  intros Hx Rx Hf Hd. destruct (Hx Rx f rest Hf Hd) as (t & E & P).
  unfold elementText. unfold encode in E. now rewrite E.
Qed.

Lemma parseElements_items items :
  Forall readsBack items -> forallb representable items = true ->
  items <> [] ->
  forall acc fuel rest,
    (List.length items + list_sum (map weight items) <= fuel)%nat ->
    parseElements fuel acc (join "," (map elementText items) ++ String "]" rest)
    = Some (VArr (acc ++ items), rest).
Proof.
  induction items as [|x l IH]; [congruence|].
  intros F R _ acc fuel rest Hf.
  inversion F as [|? ? Hx Hl]; subst.
  cbn [forallb] in R. apply andb_true_iff in R as [Rx Rl].
  cbn [List.length map list_sum fold_right] in Hf.
  destruct fuel as [|f]; [lia|]. rewrite parseElements_S.
  destruct l as [|y l'].
  - cbn [map join].
    rewrite (readsBack_element x f _ Hx Rx) by (lia || reflexivity).
    read_separator. reflexivity.
  - change (map elementText (x :: y :: l'))
      with (elementText x :: elementText y :: map elementText l').
    rewrite EncoderFacts.join_cons2. change (map elementText (y :: l'))
      with (elementText y :: map elementText l') in IH.
    rewrite !app_assoc. cbn [append].
    rewrite (readsBack_element x f _ Hx Rx) by (lia || reflexivity).
    read_separator.
    rewrite (IH Hl Rl) by (congruence || (cbn [List.length map list_sum fold_right] in *; lia)).
    now rewrite <- List.app_assoc.
Qed.

Lemma setField_fresh k x (acc : list field) :
  existsb (String.eqb k) (map fst acc) = false ->
  setField k x acc = (acc ++ [(k, x)])%list.
Proof.
  induction acc as [|[k0 y] acc IH]; [reflexivity|].
  cbn [map fst existsb setField]. intros H.
  apply orb_false_iff in H as [Hk H]. rewrite Hk, (IH H). reflexivity.
Qed.

Lemma distinct_middle (a b : list string) k :
  distinct (a ++ k :: b) = true ->
  existsb (String.eqb k) a = false /\ distinct ((a ++ [k]) ++ b) = true.
Proof.
  induction a as [|x a IH]; cbn [List.app distinct existsb].
  - intros H. split; [reflexivity | exact H].
  - intros H. apply andb_true_iff in H as [Hx Hd].
    destruct (IH Hd) as [Hk Hd'].
    rewrite existsb_app in Hx. cbn [existsb] in Hx.
    apply negb_true_iff in Hx. apply orb_false_iff in Hx as [Hxa Hxb].
    apply orb_false_iff in Hxb as [Hxk Hxb].
    split.
    + rewrite String.eqb_sym, Hxk, Hk. reflexivity.
    + rewrite Hd', !existsb_app. cbn [existsb]. now rewrite Hxa, Hxk, Hxb.
Qed.

Lemma parseMembers_fields fields :
  Forall (fun kx => readsBack (snd kx)) fields ->
  forallb (fun kx => representable (snd kx)) fields = true ->
  fields <> [] ->
  forall acc fuel rest,
    distinct (map fst (acc ++ fields)) = true ->
    (List.length fields
     + list_sum (map (fun kx => weight (snd kx)) fields) <= fuel)%nat ->
    parseMembers fuel acc
      (join "," (map (fun kx => quote (fst kx) ++ ":" ++ elementText (snd kx))
                     fields) ++ String "}" rest)
    = Some (VObj (acc ++ fields), rest).
Proof.
  induction fields as [|[k x] l IH]; [congruence|].
  intros F R _ acc fuel rest D Hf.
  inversion F as [|? ? Hx Hl]; subst. cbn [snd] in Hx.
  cbn [forallb snd] in R. apply andb_true_iff in R as [Rx Rl].
  cbn [List.length map list_sum fold_right snd] in Hf.
  rewrite map_app in D. cbn [map fst] in D.
  destruct (distinct_middle _ _ _ D) as [Dk D'].
  destruct fuel as [|f]; [lia|]. rewrite parseMembers_S.
  destruct l as [|[k' y] l'].
  - cbn [map join fst snd]. rewrite !app_assoc, quote_app.
    read_separator.
    rewrite parseChars_escape. cbn [append].
    read_separator.
    rewrite (readsBack_element x f _ Hx Rx) by (lia || reflexivity).
    read_separator.
    now rewrite (setField_fresh _ _ _ Dk).
  - change (map (fun kx => quote (fst kx) ++ ":" ++ elementText (snd kx))
                ((k, x) :: (k', y) :: l'))
      with ((quote k ++ ":" ++ elementText x)
              :: map (fun kx => quote (fst kx) ++ ":" ++ elementText (snd kx))
                     ((k', y) :: l')).
    change (map (fun kx => quote (fst kx) ++ ":" ++ elementText (snd kx))
                ((k', y) :: l'))
      with ((quote k' ++ ":" ++ elementText y)
              :: map (fun kx => quote (fst kx) ++ ":" ++ elementText (snd kx)) l')
      in *.
    rewrite EncoderFacts.join_cons2, !app_assoc, quote_app.
    read_separator.
    rewrite parseChars_escape. cbn [append].
    read_separator.
    rewrite (readsBack_element x f _ Hx Rx) by (lia || reflexivity).
    read_separator.
    rewrite (setField_fresh _ _ _ Dk).
    rewrite (IH Hl Rl).
    + now rewrite <- List.app_assoc.
    + congruence.
    + rewrite map_app, map_app. exact D'.
    + cbn [List.length map list_sum fold_right snd] in *. lia.
Qed.

Lemma join_head sep x l :
  exists r, join sep (x :: l) = x ++ r.
Proof.
  destruct l as [|y l]; [exists ""; symmetry; apply app_nil_r|].
  exists (sep ++ join sep (y :: l)). apply EncoderFacts.join_cons2.
Qed.

Lemma elementText_head x :
  representable x = true ->
  exists c r, elementText x = String c r /\ valueHead c = true.
Proof.
  intros R. destruct (representable_encodes x R) as [t E].
  unfold elementText. rewrite E. now apply (encode_head x).
Qed.

Lemma literal_app word rest : literal word (word ++ rest) = Some rest.
Proof. unfold literal. now rewrite prefix_app, drop_app. Qed.

Lemma parseValue_null f r : parseValue (S f) ("null" ++ r) = Some (VNull, r).
Proof.
  change (parseValue (S f) ("null" ++ r))
    with (option_map (pair VNull) (literal "ull" ("ull" ++ r))).
  now rewrite literal_app.
Qed.

Lemma parseValue_true f r :
  parseValue (S f) ("true" ++ r) = Some (VBool true, r).
Proof.
  change (parseValue (S f) ("true" ++ r))
    with (option_map (pair (VBool true)) (literal "rue" ("rue" ++ r))).
  now rewrite literal_app.
Qed.

Lemma parseValue_false f r :
  parseValue (S f) ("false" ++ r) = Some (VBool false, r).
Proof.
  change (parseValue (S f) ("false" ++ r))
    with (option_map (pair (VBool false)) (literal "alse" ("alse" ++ r))).
  now rewrite literal_app.
Qed.

(** The standard encoding of a representable value reads back as the
    value. *)
Lemma encode_readsBack v : readsBack v.
Proof.
  induction v as [| |b|n|s|items IH|fields IH|f] using value_nested_ind;
    intros R fuel rest Hf Hd; rewrite representable_eq in R;
    apply andb_true_iff in R as [_ R]; try discriminate;
    (destruct fuel as [|fuel]; [simpl in Hf; lia|]).
  - exists "null". split; [reflexivity | apply parseValue_null].
  - destruct b.
    + exists "true". split; [reflexivity | apply parseValue_true].
    + exists "false". split; [reflexivity | apply parseValue_false].
  - exists (decimal n). split; [reflexivity|].
    destruct (decimal_head n) as (c & r & E & H).
    pose proof (parseNumber_decimal n rest Hd) as P.
    rewrite E in *. cbn [append] in *.
    now rewrite (parseValue_number fuel c _ H), P.
  - exists (quote s). split; [reflexivity|].
    rewrite quote_app, parseValue_string, parseChars_escape. reflexivity.
  - exists ("[" ++ join "," (map elementText items) ++ "]").
    split; [reflexivity|].
    cbn [append]. rewrite parseValue_array.
    destruct items as [|x l]; [reflexivity|].
    cbn [forallb] in R. pose proof R as R'.
    apply andb_true_iff in R' as [Rx _].
    destruct (elementText_head x Rx) as (c & r & E & H).
    destruct (join_head "," (elementText x) (map elementText l)) as [j J].
    match goal with
    | |- context [startsWith "]" (skipWhitespace ?T)] =>
        assert (N : startsWith "]" (skipWhitespace T) = None)
    end.
    { change (map elementText (x :: l)) with (elementText x :: map elementText l).
      rewrite J, E. cbn [append].
      apply (startsWith_value c _ "]" H). now left. }
    rewrite N. rewrite app_assoc. cbn [append]. cbn [weight] in Hf.
    apply (parseElements_items (x :: l) IH); [exact R | discriminate | lia].
  - apply andb_true_iff in R as [R D].
    exists ("{" ++ join ","
                    (map (fun kx => quote (fst kx) ++ ":" ++ elementText (snd kx))
                         fields) ++ "}").
    split; [unfold encode; rewrite EncoderFacts.stringify_eq;
            now rewrite (members_map fields R)|].
    cbn [append]. rewrite parseValue_object.
    destruct fields as [|[k x] l]; [reflexivity|].
    match goal with
    | |- context [startsWith "}" (skipWhitespace ?T)] =>
        assert (N : startsWith "}" (skipWhitespace T) = None)
    end.
    { cbn [map fst snd].
      match goal with
      | |- context [join "," (?a :: ?b)] =>
          destruct (join_head "," a b) as [j J]; rewrite J
      end.
      rewrite !app_assoc. rewrite quote_app.
      apply (startsWith_value dquote _ "}"); [reflexivity | now right]. }
    rewrite N. rewrite app_assoc. cbn [append]. cbn [weight] in Hf.
    apply (parseMembers_fields ((k, x) :: l) IH);
      [exact R | discriminate | exact D | lia].
Qed.

(** Parsing the standard encoding of a representable value returns the
    value. *)
Lemma parse_encode v fuel :
  representable v = true -> (weight v <= fuel)%nat ->
  exists t, encode v = Some t /\ parse fuel t = Some v.
Proof.
  intros R Hf.
  destruct (encode_readsBack v R fuel "" Hf eq_refl) as (t & E & P).
  exists t. split; [exact E|].
  unfold parse. rewrite app_nil_r in P. now rewrite P.
Qed.

Lemma literalOnly_unfold v :
  literalOnly v =
  negb (isFunctionLike v)
  && match v with
     | VArr items => forallb literalOnly items
     | VObj fields => forallb (fun kx => literalOnly (snd kx)) fields
     | _ => true
     end.
Proof. destruct v; reflexivity. Qed.

Lemma representable_literalOnly v : representable v = true -> literalOnly v = true.
Proof.
  induction v as [| |b|n|s|items IH|fields IH|f] using value_nested_ind;
    rewrite representable_eq, literalOnly_unfold; intros H;
    apply andb_true_iff in H as [F H]; rewrite F; try discriminate;
    try reflexivity; cbn [andb].
  - apply forallb_forall. intros x Hx.
    rewrite Forall_forall in IH. rewrite forallb_forall in H. auto.
  - apply andb_true_iff in H as [H _].
    apply forallb_forall. intros x Hx.
    rewrite Forall_forall in IH. rewrite forallb_forall in H. auto.
Qed.

End RoundTrip.

(** * The claim about literal configurations *)

Section LiteralClaims.
Import Js JsFacts JSON Parse SpliceText RoundTrip.

(** C1 (as stated) fails.  A literal configuration is free to hold the
    markers in a string; the loop then takes the string for a callable
    and writes its inside bare.  An object with a [call] and an [apply]
    field is no callable, and the replacer takes it for one.  In both
    cases the text is not the standard encoding and does not parse. *)
Lemma literal_with_markers_is_spliced :
  (literalOnly Collision.options = true
   /\ exists out,
        stringifyWithFunctions 1 Collision.options = Ok out
        /\ encode Collision.options <> Some out
        /\ forall fuel, parse fuel out = None)
  /\ (exists out,
        stringifyWithFunctions 1 Collision.duck = Ok out
        /\ encode Collision.duck <> Some out
        /\ forall fuel, parse fuel out = None).
Proof.
  split; [split; [reflexivity|]|]; eexists;
    (split; [vm_compute; reflexivity|]);
    (split; [vm_compute; discriminate|]);
    intros fuel; do 8 (destruct fuel as [|fuel]; [reflexivity|]); reflexivity.
Qed.

(** C1 (amended). For every configuration that JSON holds as it is (no
    callable, no [undefined], no key twice) and whose keys and strings do
    not hold the start marker, the serializer returns the standard
    encoding of the configuration, whatever the fuel, and parsing that
    text gives the configuration back. *)
Theorem literal_round_trip (fuel fuel' : nat) (config : value) :
  representable config = true ->
  avoids FUNC_START config = true ->
  (weight config <= fuel')%nat ->
  exists text,
    encode config = Some text
    /\ stringifyWithFunctions fuel config = Ok text
    /\ parse fuel' text = Some config.
Proof.
  intros R A W. destruct (parse_encode config fuel' R W) as (t & E & P).
  exists t. repeat split; [exact E | | exact P].
  rewrite (stringifyWithFunctions_literal fuel config
             (representable_literalOnly config R) A).
  now rewrite E.
Qed.

End LiteralClaims.

(** * The claims at sample values *)

Lemma literal_round_trip_witness :
  exists text,
    JSON.encode Sample.options = Some text
    /\ stringifyWithFunctions 0 Sample.options = Ok text
    /\ Parse.parse 20 text = Some Sample.options.
Proof.
  apply (literal_round_trip 0 20 Sample.options);
    [reflexivity | reflexivity | vm_compute; lia].
Defined.





Lemma recorder_code_members_then_helper_witness :
  exists texts,
    Forall2 Stripped
      (map source [Sample.member; Sample.member; Sample.member; Sample.member;
                   Sample.member; Sample.member; Sample.member]) texts
    /\ getEventRecorderCode Sample.member Sample.member Sample.member
         Sample.member Sample.member Sample.member Sample.member Sample.helper
       = Js.nl ++ Js.nl
         ++ Js.join (Js.nl ++ Js.nl) (texts ++ [source Sample.helper])%list
         ++ Js.nl ++ Js.nl.
Proof.
  apply (recorder_code_members_then_helper Sample.member Sample.member
           Sample.member Sample.member Sample.member Sample.member
           Sample.member Sample.helper).
  reflexivity.
Defined.

Lemma combined_nests_definition_and_invocation_witness :
  exists d i,
    fst (getInlinePrebootCodeDefinition Sample.member Sample.member
           Sample.member Sample.member Sample.member Sample.member
           Sample.member Sample.member Sample.helper
           (Some Sample.options) initialStore) = Ok d
    /\ fst (getInlinePrebootCodeInvocation 0 (Some Sample.options) initialStore)
       = Ok i
    /\ fst (getInlinePrebootCode Sample.member Sample.member
              Sample.member Sample.member Sample.member Sample.member
              Sample.member Sample.member Sample.helper
              0 (Some Sample.options) initialStore)
       = Ok ("(function() {" ++ Js.nl ++ "      " ++ d ++ Js.nl
             ++ "      " ++ i ++ Js.nl ++ "    })()").
Proof.
  eexists. eexists. split; [reflexivity|]. split; [reflexivity|].
  rewrite (combined_nests_definition_and_invocation Sample.member Sample.member
             Sample.member Sample.member Sample.member Sample.member
             Sample.member Sample.member Sample.helper
             0 (Some Sample.options) initialStore); reflexivity.
Defined.

Lemma emitters_deterministic_witness :
  fst (getInlinePrebootCodeInvocation 2 (Some Sample.withCallables)
         (snd (getInlinePrebootCodeInvocation 2 (Some Sample.withCallables)
                 initialStore)))
  = fst (getInlinePrebootCodeInvocation 2 (Some Sample.withCallables) initialStore).
Proof.
  apply (emitters_deterministic Sample.member Sample.member
           Sample.member Sample.member Sample.member Sample.member
           Sample.member Sample.member Sample.helper
           2 2 (Some Sample.withCallables) initialStore initialStore);
    reflexivity.
Defined.


(** * Further properties of the merge *)

Module AssignFacts.
Import Js JsFacts OptionFacts.

Lemma keys_setField k v (fs : list field) :
  map fst (setField k v fs) =
  if hasKey k fs then map fst fs else (map fst fs ++ [k])%list.
Proof.
  unfold hasKey. induction fs as [|[k0 x] fs IH]; [reflexivity|].
  cbn [setField map fst existsb].
  destruct (String.eqb k k0); [reflexivity|].
  cbn [map fst orb]. rewrite IH.
  now destruct (existsb (String.eqb k) (map fst fs)).
Qed.

Lemma distinct_snoc (l : list string) k :
  distinct l = true -> existsb (String.eqb k) l = false ->
  distinct (l ++ [k]) = true.
Proof.
  induction l as [|x l IH]; [reflexivity|].
  cbn [distinct existsb List.app]. intros H N.
  apply andb_true_iff in H as [Hx Hl]. apply orb_false_iff in N as [Nx Nl].
  rewrite (IH Hl Nl), existsb_app. cbn [existsb].
  apply negb_true_iff in Hx. rewrite Hx, String.eqb_sym, Nx. reflexivity.
Qed.

Lemma distinct_setField k v (fs : list field) :
  distinct (map fst fs) = true -> distinct (map fst (setField k v fs)) = true.
Proof.
  intros H. rewrite keys_setField. unfold hasKey.
  destruct (existsb (String.eqb k) (map fst fs)) eqn:E; [exact H|].
  now apply distinct_snoc.
Qed.

Lemma distinct_copyFields out source :
  distinct (map fst out) = true ->
  distinct (map fst (copyFields out source)) = true.
Proof.
  unfold copyFields. revert out.
  induction (ownFields source) as [|[k v] l IH]; intros out H; [exact H|].
  cbn [fold_left fst snd]. apply IH. now apply distinct_setField.
Qed.

Lemma hasKey_setField k k' v fs :
  hasKey k (setField k' v fs) = String.eqb k k' || hasKey k fs.
Proof.
  unfold hasKey. rewrite keys_setField. unfold hasKey.
  destruct (existsb (String.eqb k') (map fst fs)) eqn:E.
  - destruct (String.eqb_spec k k') as [->|N]; [now rewrite E | reflexivity].
  - rewrite existsb_app. cbn [existsb]. rewrite orb_false_r. apply orb_comm.
Qed.

Lemma keys_fold (src out : list field) :
  distinct (map fst src) = true ->
  map fst (fold_left (fun o kv => setField (fst kv) (snd kv) o) src out) =
  (map fst out ++ filter (fun k => negb (hasKey k out)) (map fst src))%list.
Proof.
  revert out. induction src as [|[k v] l IH]; intros out D.
  - cbn. now rewrite List.app_nil_r.
  - cbn [map fst distinct] in D. apply andb_true_iff in D as [Dk Dl].
    apply negb_true_iff in Dk.
    cbn [fold_left fst snd map filter]. rewrite (IH _ Dl), keys_setField.
    assert (F : filter (fun k0 => negb (hasKey k0 (setField k v out))) (map fst l)
                = filter (fun k0 => negb (hasKey k0 out)) (map fst l)).
    { apply filter_ext_in. intros k0 Hin. rewrite hasKey_setField.
      destruct (String.eqb_spec k0 k) as [->|N]; [|reflexivity].
      exfalso. assert (existsb (String.eqb k) (map fst l) = true).
      { apply existsb_exists. exists k. split; [exact Hin | apply String.eqb_refl]. }
      congruence. }
    rewrite F. destruct (hasKey k out); cbn [negb]; [reflexivity|].
    now rewrite <- List.app_assoc.
Qed.

Lemma keys_copyFields out source :
  distinct (map fst (ownFields source)) = true ->
  map fst (copyFields out source) = (map fst out ++ newKeys out source)%list.
Proof. intros D. unfold copyFields, newKeys. now apply keys_fold. Qed.

Lemma lookup_absent k (fs : list field) :
  hasKey k fs = false -> lookup k fs = None.
Proof.
  unfold hasKey. induction fs as [|[k0 x] fs IH]; [reflexivity|].
  cbn [map fst existsb lookup]. intros H. apply orb_false_iff in H as [H1 H2].
  rewrite H1. now apply IH.
Qed.

Lemma lookup_present k (fs : list field) :
  hasKey k fs = true -> exists v, lookup k fs = Some v.
Proof.
  unfold hasKey. induction fs as [|[k0 x] fs IH]; [discriminate|].
  cbn [map fst existsb lookup]. destruct (String.eqb k k0); [now exists x | exact IH].
Qed.

(** Two objects with the same keys in the same order, each once, and the
    same value under every key are the same object. *)
Lemma fields_ext (a b : list field) :
  map fst a = map fst b -> distinct (map fst a) = true ->
  (forall k, lookup k a = lookup k b) -> a = b.
Proof.
  revert b. induction a as [|[k v] a IH]; intros [|[k' v'] b] K D L;
    try discriminate; [reflexivity|].
  cbn [map fst] in K. injection K as <- K.
  cbn [map fst distinct] in D. apply andb_true_iff in D as [Dk Da].
  apply negb_true_iff in Dk.
  pose proof (L k) as Lk. cbn [lookup] in Lk. rewrite String.eqb_refl in Lk.
  injection Lk as <-. f_equal. apply IH; [exact K | exact Da|].
  intros k0. specialize (L k0). cbn [lookup] in L.
  destruct (String.eqb k0 k) eqn:E; [|exact L].
  apply String.eqb_eq in E. subst k0.
  rewrite !lookup_absent; [reflexivity | unfold hasKey; now rewrite <- K | exact Dk].
Qed.

Lemma copyFields_nullish out source : nullish source = true -> copyFields out source = out.
Proof. destruct source; try discriminate; reflexivity. Qed.

Lemma merge_skips_nullish sources out :
  fold_left copyFields sources out
  = fold_left copyFields (filter (fun s => negb (nullish s)) sources) out.
Proof.
  revert out. induction sources as [|s l IH]; intros out; [reflexivity|].
  cbn [fold_left filter]. destruct (nullish s) eqn:N; cbn [negb].
  - rewrite (copyFields_nullish _ _ N). apply IH.
  - cbn [fold_left]. apply IH.
Qed.

Lemma lookup_merge k sources out :
  wellKeyed sources = true ->
  lookup k (fold_left copyFields sources out) =
  match lastDefined k sources with
  | Some v => Some v
  | None => lookup k out
  end.
Proof.
  revert out. induction sources as [|s l IH]; intros out W; [reflexivity|].
  cbn [wellKeyed forallb] in W. apply andb_true_iff in W as [Ws Wl].
  cbn [fold_left lastDefined]. rewrite (IH _ Wl).
  destruct (lastDefined k l); [reflexivity|].
  apply lookup_copyFields. now apply distinct_NoDup.
Qed.

Lemma filter_none {A} (p : A -> bool) l :
  (forall x, In x l -> p x = false) -> filter p l = [].
Proof.
  induction l as [|x l IH]; [reflexivity|]. intros H. cbn [filter].
  rewrite (H x (or_introl eq_refl)). apply IH. intros y Hy. apply H. now right.
Qed.

Lemma hasKey_In k (fs : list field) : In k (map fst fs) -> hasKey k fs = true.
Proof.
  intros H. unfold hasKey. apply existsb_exists. exists k.
  split; [exact H | apply String.eqb_refl].
Qed.

Lemma hasKey_copyFields k out source :
  distinct (map fst (ownFields source)) = true ->
  In k (map fst (ownFields source)) -> hasKey k (copyFields out source) = true.
Proof.
  intros D H. unfold hasKey. rewrite (keys_copyFields _ _ D), existsb_app.
  destruct (existsb (String.eqb k) (map fst out)) eqn:E; [reflexivity|].
  cbn [orb]. apply existsb_exists. exists k. split; [|apply String.eqb_refl].
  unfold newKeys. apply filter_In. split; [exact H|].
  unfold hasKey. now rewrite E.
Qed.

Lemma copyFields_twice out source :
  distinct (map fst out) = true ->
  distinct (map fst (ownFields source)) = true ->
  copyFields (copyFields out source) source = copyFields out source.
Proof.
  intros Do Ds. apply fields_ext.
  - rewrite (keys_copyFields (copyFields out source) _ Ds).
    unfold newKeys. rewrite filter_none; [apply List.app_nil_r|].
    intros k Hk. now rewrite (hasKey_copyFields k out source Ds Hk).
  - now apply distinct_copyFields, distinct_copyFields.
  - intros k. rewrite !lookup_copyFields by (now apply distinct_NoDup).
    now destruct (lookup k (ownFields source)).
Qed.

Lemma copyFields_self fs :
  distinct (map fst fs) = true -> copyFields fs (VObj fs) = fs.
Proof.
  intros D. apply fields_ext.
  - rewrite (keys_copyFields fs (VObj fs) D). unfold newKeys.
    rewrite filter_none; [apply List.app_nil_r|].
    intros k Hk. cbn [ownFields] in Hk. now rewrite (hasKey_In k fs Hk).
  - now apply distinct_copyFields.
  - intros k. rewrite lookup_copyFields by (now apply distinct_NoDup).
    cbn [ownFields]. now destruct (lookup k fs).
Qed.

Lemma deref_update_same a fs (st : store) :
  (a < List.length st)%nat -> deref (update a fs st) a = fs.
Proof.
  unfold deref. revert a; induction st as [|o st IH]; intros [|a] H;
    simpl in *; try lia; [reflexivity|]. apply IH. lia.
Qed.



Lemma update_update a fs gs (st : store) :
  update a fs (update a gs st) = update a fs st.
Proof.
  revert a; induction st as [|o st IH]; intros [|a]; simpl; try reflexivity.
  now rewrite IH.
Qed.

Lemma update_deref a (st : store) :
  (a < List.length st)%nat -> update a (deref st a) st = st.
Proof.
  unfold deref. revert a; induction st as [|o st IH]; intros [|a] H;
    simpl in *; try lia; [reflexivity|]. rewrite IH; [reflexivity | lia].
Qed.

End AssignFacts.

Section MergeProperties.
Import Js JsFacts OptionFacts AssignFacts.



(** X3. A source that is [undefined] or [null] is passed over: the merge
    with such sources is the merge without them. *)
Theorem merge_passes_over_nullish_sources
  (target : reference) (sources : list value) (st : store) :
  assign target sources st
  = assign target (filter (fun s => negb (nullish s)) sources) st.
Proof.
  destruct target as [| |a]; try reflexivity.
  cbn [assign]. now rewrite merge_skips_nullish.
Qed.


(** X5. Merging the same source a second time changes nothing, and
    merging an object into itself changes nothing (target and source
    holding every key once). *)
Theorem merge_again_changes_nothing (a : nat) (source : value) (st : store) :
  (a < List.length st)%nat ->
  distinct (map fst (deref st a)) = true ->
  distinct (map fst (ownFields source)) = true ->
  let once := snd (assign (Object_ a) [source] st) in
  snd (assign (Object_ a) [source] once) = once
  /\ snd (assign (Object_ a) [VObj (deref st a)] st) = st.
Proof.
  intros H Da Ds once. unfold once. cbn [assign snd fold_left]. split.
  - rewrite deref_update_same by exact H.
    rewrite update_update. now rewrite copyFields_twice.
  - rewrite (copyFields_self _ Da). now apply update_deref.
Qed.

End MergeProperties.

(** * Further properties of the serializer *)

Section SerializerProperties.
Import Js JsFacts Occurrence JSON EscapeFacts SpliceFacts EncoderFacts
  SerializerFacts SpliceText LoopFacts UnmatchedFacts.






End SerializerProperties.




(** * Further properties of the emitters *)

Module OccursFacts.
Import Js JsFacts Occurrence.

Lemma occurs_app_l pat a b : find pat a <> None -> find pat (a ++ b) <> None.
Proof. intros H L. apply H. now apply (lacks_app_l pat a b). Qed.

Lemma occurs_app_r pat a b : find pat b <> None -> find pat (a ++ b) <> None.
Proof. intros H L. apply H. now apply (lacks_app_r pat a b). Qed.

Lemma occurs_join pat sep x l :
  In x l -> find pat x <> None -> find pat (join sep l) <> None.
Proof.
  induction l as [|y l IH]; [contradiction|]. intros [->|H] O.
  - destruct l as [|z l]; [exact O|].
    rewrite EncoderFacts.join_cons2. now apply occurs_app_l.
  - destruct l as [|z l]; [contradiction|].
    rewrite EncoderFacts.join_cons2. apply occurs_app_r, occurs_app_r. auto.
Qed.

(** [replace] removes the first occurrence only: what the text holds
    behind it stays. *)
Lemma replace_keeps_later pat s n :
  find pat s = Some n ->
  find pat (drop (n + String.length pat) s) <> None ->
  find pat (replace s pat "") <> None.
Proof.
  intros F O. unfold replace. rewrite F. cbn [append].
  now apply occurs_app_r.
Qed.

End OccursFacts.

Section RecorderProperties.
Import Js JsFacts OccursFacts.

Variables start createOverlay getAppRoots handleEvents createListenHandler
  getSelection createBuffer getNodeKeyForPreboot : func.

Let recorderCode :=
  getEventRecorderCode start createOverlay getAppRoots handleEvents
    createListenHandler getSelection createBuffer getNodeKeyForPreboot.

(** X10. The qualifier is taken out of a registry member's text once:
    when the text of a member holds it again behind its first occurrence,
    the recorder code holds the qualifier. *)
Theorem recorder_code_keeps_a_second_qualifier (member : func) (n : nat) :
  In member [start; createOverlay; getAppRoots; handleEvents;
             createListenHandler; getSelection; createBuffer] ->
  find qualifier (source member) = Some n ->
  absent qualifier (drop (n + String.length qualifier) (source member)) = false ->
  absent qualifier recorderCode = false.
Proof.
  intros I F A.
  assert (O : find qualifier (replace (source member) qualifier "") <> None).
  { apply (replace_keeps_later _ _ n F). unfold absent in A.
    now destruct (find qualifier (drop _ _)). }
  assert (R : find qualifier recorderCode <> None).
  { unfold recorderCode, getEventRecorderCode.
    apply occurs_app_r, occurs_app_r, occurs_app_l.
    apply (occurs_join _ _ (replace (source member) qualifier "")); [|exact O].
    apply in_or_app. left.
    change (In (replace (toString (VFun member)) "common_1." "")
              (map (fun kv => replace (toString (snd kv)) "common_1." "")
                   (eventRecorder start createOverlay getAppRoots handleEvents
                      createListenHandler getSelection createBuffer))).
    apply in_map_iff.
    cbn [In] in I.
    destruct I as [<-|[<-|[<-|[<-|[<-|[<-|[<-|[]]]]]]]];
      eexists (_, VFun _); (split; [reflexivity|]); cbn; tauto. }
  unfold absent. now destruct (find qualifier recorderCode).
Qed.

End RecorderProperties.

Section EmitterProperties.
Import Js JsFacts OptionFacts LoopFacts AssignFacts OccursFacts.

Variables start createOverlay getAppRoots handleEvents createListenHandler
  getSelection createBuffer init getNodeKeyForPreboot : func.

Let definition :=
  getInlinePrebootCodeDefinition start createOverlay getAppRoots handleEvents
    createListenHandler getSelection createBuffer init getNodeKeyForPreboot.
Let invocation := getInlinePrebootCodeInvocation.
Let combined :=
  getInlinePrebootCode start createOverlay getAppRoots handleEvents
    createListenHandler getSelection createBuffer init getNodeKeyForPreboot.
Let recorderCode :=
  getEventRecorderCode start createOverlay getAppRoots handleEvents
    createListenHandler getSelection createBuffer getNodeKeyForPreboot.

Let definition_at := definition_run start createOverlay getAppRoots handleEvents
    createListenHandler getSelection createBuffer init getNodeKeyForPreboot.
Let combined_at := combined_run start createOverlay getAppRoots handleEvents
    createListenHandler getSelection createBuffer init getNodeKeyForPreboot.

(** X11. The definition block does not depend on the options: on loaded
    stores, any two configurations that pass the check give the same
    text, the registry code and the entry function in their wrapper. *)
Theorem definition_is_the_same_for_all_options
  (options options' : option value) (st st' : store) :
  loaded st -> loaded st' ->
  validateOptions (VObj (resolved options)) = Ok tt ->
  validateOptions (VObj (resolved options')) = Ok tt ->
  fst (definition options st) = Ok (definitionBlock recorderCode (source init))
  /\ fst (definition options' st') = fst (definition options st).
Proof.
  intros L L' V V'. unfold definition.
  rewrite (definition_at _ _ L), (definition_at _ _ L'). cbn [fst].
  now rewrite V, V'.
Qed.

(** X12. For a configuration that passes the check, that JSON holds as it
    is and whose texts do not hold the start marker, the argument of the
    emitted call parses back to the resolved options: the entry function
    receives the defaults overridden by the custom options. *)
Theorem invocation_argument_parses_back
  (fuel fuel' : nat) (customOptions : option value) (st : store) :
  loaded st ->
  let opts := VObj (resolved customOptions) in
  validateOptions opts = Ok tt ->
  representable opts = true ->
  avoids FUNC_START opts = true ->
  (weight opts <= fuel')%nat ->
  exists text,
    fst (invocation fuel customOptions st) = Ok ("prebootInitFn(" ++ text ++ ");")
    /\ Parse.parse fuel' text = Some opts.
Proof.
  intros L opts V R A W.
  destruct (RoundTrip.parse_encode opts fuel' R W) as (t & E & P).
  exists t. split; [|exact P].
  unfold invocation. rewrite (invocation_run _ _ _ L). cbn [fst]. fold opts.
  rewrite V.
  rewrite (SpliceText.stringifyWithFunctions_literal fuel opts
             (RoundTrip.representable_literalOnly opts R) A), E.
  reflexivity.
Qed.


(** X14. The combined emitter ends as the invocation emitter does for the
    same options: with the same error, out of fuel when it is, and with a
    text when it returns one, the text being the wrapper around the
    definition block and that invocation statement. *)
Theorem combined_ends_as_invocation
  (fuel : nat) (customOptions : option value) (st : store) :
  loaded st ->
  match fst (invocation fuel customOptions st) with
  | Ok i =>
      fst (combined fuel customOptions st)
      = Ok (combinedBlock (definitionBlock recorderCode (source init)) i)
  | Throw e => fst (combined fuel customOptions st) = Throw e
  | OutOfFuel => fst (combined fuel customOptions st) = OutOfFuel
  end.
Proof.
  intros L. unfold combined. rewrite (combined_at _ _ _ L).
  fold definition. unfold definition, invocation.
  rewrite (definition_at _ _ L), (invocation_run _ _ _ L). cbn [fst].
  destruct (validateOptions _) as [[]|e|]; try reflexivity.
  now destruct (stringifyWithFunctions _ _).
Qed.

End EmitterProperties.

Section ResolveProperties.
Import Js JsFacts OptionFacts AssignFacts.


(** X16. [getMockOptions] returns a new object and changes no other: it
    holds the mock window under [window] and, under every other key, what
    [defaultOptions] holds at the time of the call. *)
Theorem mock_options_are_defaults_with_window (name : string) (st : store) :
  distinct (map fst (deref st 0)) = true ->
  fst (getMockOptions st) = Ok (Object_ (List.length st))
  /\ lookup name (deref (snd (getMockOptions st)) (List.length st))
     = (if String.eqb name "window" then Some getMockWindow
        else lookup name (deref st 0))
  /\ (forall b, (b < List.length st)%nat ->
        deref (snd (getMockOptions st)) b = deref st b).
Proof.
  intros D. unfold getMockOptions, bind, newObject, load, defaultOptions.
  cbn [assign fst snd]. rewrite update_new, deref_new.
  assert (E : deref (st ++ [[]])%list 0 = deref st 0).
  { unfold deref. destruct st; reflexivity. }
  rewrite E. repeat split.
  - rewrite deref_new.
    rewrite lookup_merge by (cbn [wellKeyed forallb ownFields]; now rewrite D).
    cbn [lastDefined ownFields lookup]. destruct (String.eqb name "window");
      [reflexivity|]. now destruct (lookup name (deref st 0)).
  - intros b H. now apply deref_old.
Qed.

End ResolveProperties.

(** * The further properties at sample values *)



Lemma merge_again_changes_nothing_witness :
  snd (assign (Object_ 0) [Sample.options]
         (snd (assign (Object_ 0) [Sample.options] initialStore)))
  = snd (assign (Object_ 0) [Sample.options] initialStore).
Proof.
  apply (merge_again_changes_nothing 0 Sample.options initialStore);
    [simpl; lia | reflexivity | reflexivity].
Defined.

Lemma recorder_code_keeps_a_second_qualifier_witness :
  absent qualifier
    (getEventRecorderCode Sample.member Sample.member Nested.twice
       Sample.member Sample.member Sample.member Sample.member Sample.helper)
  = false.
Proof.
  apply (recorder_code_keeps_a_second_qualifier Sample.member Sample.member
           Nested.twice Sample.member Sample.member Sample.member Sample.member
           Sample.helper Nested.twice 16%nat);
    [simpl; tauto | reflexivity | reflexivity].
Defined.

Lemma definition_is_the_same_for_all_options_witness :
  fst (getInlinePrebootCodeDefinition Sample.member Sample.member
         Sample.member Sample.member Sample.member Sample.member
         Sample.member Sample.member Sample.helper
         (Some Nested.options) initialStore)
  = fst (getInlinePrebootCodeDefinition Sample.member Sample.member
           Sample.member Sample.member Sample.member Sample.member
           Sample.member Sample.member Sample.helper
           (Some Sample.options) initialStore).
Proof.
  apply (definition_is_the_same_for_all_options Sample.member Sample.member
           Sample.member Sample.member Sample.member Sample.member
           Sample.member Sample.member Sample.helper
           (Some Sample.options) (Some Nested.options) initialStore initialStore);
    reflexivity.
Defined.

Lemma invocation_argument_parses_back_witness :
  exists text,
    fst (getInlinePrebootCodeInvocation 0 (Some Sample.options) initialStore)
    = Ok ("prebootInitFn(" ++ text ++ ");")
    /\ Parse.parse 20 text = Some (VObj (resolved (Some Sample.options))).
Proof.
  apply (invocation_argument_parses_back 0 20 (Some Sample.options) initialStore);
    [reflexivity | reflexivity | reflexivity | reflexivity | vm_compute; lia].
Defined.


Lemma combined_ends_as_invocation_witness :
  match fst (getInlinePrebootCodeInvocation 0 None initialStore) with
  | Ok i =>
      fst (getInlinePrebootCode Sample.member Sample.member
             Sample.member Sample.member Sample.member Sample.member
             Sample.member Sample.member Sample.helper 0 None initialStore)
      = Ok (combinedBlock
              (definitionBlock
                 (getEventRecorderCode Sample.member Sample.member
                    Sample.member Sample.member Sample.member Sample.member
                    Sample.member Sample.helper)
                 (source Sample.member)) i)
  | Throw e =>
      fst (getInlinePrebootCode Sample.member Sample.member
             Sample.member Sample.member Sample.member Sample.member
             Sample.member Sample.member Sample.helper 0 None initialStore)
      = Throw e
  | OutOfFuel =>
      fst (getInlinePrebootCode Sample.member Sample.member
             Sample.member Sample.member Sample.member Sample.member
             Sample.member Sample.member Sample.helper 0 None initialStore)
      = OutOfFuel
  end.
Proof.
  apply (combined_ends_as_invocation Sample.member Sample.member
           Sample.member Sample.member Sample.member Sample.member
           Sample.member Sample.member Sample.helper 0 None initialStore).
  reflexivity.
Defined.


Lemma mock_options_are_defaults_with_window_witness :
  lookup "window" (deref (snd (getMockOptions initialStore)) 1)
  = Some getMockWindow.
Proof.
  apply (mock_options_are_defaults_with_window "window" initialStore).
  reflexivity.
Defined.
